(** * NER data preparation and label alignment (ner_cluster.py)

    A shallow embedding of the in-house logic of [ner_cluster.py]: the IOB
    corpus loader, the label normaliser and vocabulary, the subword label
    alignment, the decoding of predictions and the control flow of one
    sweep trial.  The downloaded text, the tokenizer's word-index mapping,
    the order in which a Python [set] is iterated and the behaviour of the
    training framework and of the tracker are inputs of the model. *)

From Stdlib Require Import String Ascii.
From Stdlib Require Import List NArith ZArith Bool Lia.
Import ListNotations.

Local Open Scope list_scope.

(* ================================================================= *)
(** ** Python values used by the program *)

(** A Python [str] is a sequence of Unicode code points. *)
Definition pychar := N.
Definition pystr := list pychar.

(** A literal of the source, written as a Rocq string. *)
Definition str (s : string) : pystr :=
  map N_of_ascii (list_ascii_of_string s).

Fixpoint pystr_eqb (a b : pystr) : bool :=
  match a, b with
  | [], [] => true
  | x :: a', y :: b' => N.eqb x y && pystr_eqb a' b'
  | _, _ => false
  end.

Definition NEWLINE : pychar := 10%N.
Definition HASH : pychar := 35%N.
Definition COMMA : pychar := 44%N.

(** [str.isspace] on one code point: the characters [str.strip()] removes. *)
Definition isspace (c : pychar) : bool :=
  ((9 <=? c) && (c <=? 13) || (28 <=? c) && (c <=? 32)
   || (c =? 133) || (c =? 160) || (c =? 5760)
   || (8192 <=? c) && (c <=? 8202)
   || (c =? 8232) || (c =? 8233) || (c =? 8239) || (c =? 8287)
   || (c =? 12288))%N.

Fixpoint lstrip (s : pystr) : pystr :=
  match s with
  | [] => []
  | c :: s' => if isspace c then lstrip s' else s
  end.

Definition rstrip (s : pystr) : pystr := rev (lstrip (rev s)).

(** [s.strip()] *)
Definition strip (s : pystr) : pystr := rstrip (lstrip s).

(** [s.split(sep)] for a one-character separator: never an empty list. *)
Fixpoint split (sep : pychar) (s : pystr) : list pystr :=
  match s with
  | [] => [[]]
  | c :: s' =>
      if N.eqb c sep then [] :: split sep s'
      else match split sep s' with
           | [] => [[c]]
           | part :: parts => (c :: part) :: parts
           end
  end.

(** [s.startswith(c)] for a one-character prefix. *)
Definition startswith (s : pystr) (c : pychar) : bool :=
  match s with
  | [] => false
  | x :: _ => N.eqb x c
  end.

(** Truth value of a Python list: false exactly when empty. *)
Definition truthy {A : Type} (l : list A) : bool :=
  match l with
  | [] => false
  | _ :: _ => true
  end.

(** Exceptions the modelled code can raise by itself. *)
Inductive exn : Type :=
| ValueError
| IndexError.

(** A computation that returns or raises. *)
Definition result (A : Type) : Type := (exn + A)%type.

Definition ok {A : Type} (a : A) : result A := inr a.
Definition raise {A : Type} (e : exn) : result A := inl e.

Definition bind {A B : Type} (m : result A) (k : A -> result B) : result B :=
  match m with
  | inl e => inl e
  | inr a => k a
  end.

Notation "x <- m ;; k" := (bind m (fun x => k))
  (at level 61, m at next level, right associativity).

(** [l.index(x)]: position of the first occurrence, [ValueError] if none. *)
Fixpoint index (l : list pystr) (x : pystr) : result nat :=
  match l with
  | [] => raise ValueError
  | y :: l' =>
      if pystr_eqb y x then ok 0
      else k <- index l' x ;; ok (S k)
  end.

(** [l[k]] for a non-negative index. *)
Definition getitem {A : Type} (l : list A) (k : nat) : result A :=
  match nth_error l k with
  | Some a => ok a
  | None => raise IndexError
  end.

(** [l[k]] for any integer: a negative index counts from the end. *)
Definition getitem_int {A : Type} (l : list A) (k : Z) : result A :=
  let n := Z.of_nat (length l) in
  if (0 <=? k)%Z then getitem l (Z.to_nat k)
  else if (- n <=? k)%Z then getitem l (Z.to_nat (n + k))
  else raise IndexError.

(* ================================================================= *)
(** ** IOB corpus loader *)

(** The four accumulators of [load_and_parse_iob]. *)
Record parser_state : Type := mk_state {
  sentences : list (list pystr);
  labels : list (list pystr);
  sentence : list pystr;
  label : list pystr
}.

Definition initial_state : parser_state := mk_state [] [] [] [].

(** The flush performed at a comment line and after the loop. *)
Definition flush (st : parser_state) : parser_state :=
  mk_state (sentences st ++ [sentence st]) (labels st ++ [label st]) [] [].

(** One iteration of [for line in data]. *)
Definition process_line (st : parser_state) (raw : pystr) : parser_state :=
  let line := strip raw in
  if negb (truthy line) then st
  else if startswith line HASH then
    if truthy (sentence st) then flush st else st
  else
    match split COMMA line with
    | [token; tag] =>
        mk_state (sentences st) (labels st)
                 (sentence st ++ [strip token]) (label st ++ [strip tag])
    | _ => st
    end.

(** The code after the loop: a last flush and the returned pair. *)
Definition finish (st : parser_state)
  : list (list pystr) * list (list pystr) :=
  if truthy (sentence st)
  then (sentences st ++ [sentence st], labels st ++ [label st])
  else (sentences st, labels st).

Definition parse_lines (data : list pystr)
  : list (list pystr) * list (list pystr) :=
  finish (fold_left process_line data initial_state).

(** [load_and_parse_iob], applied to the downloaded [response.text]. *)
Definition load_and_parse_iob (text : pystr)
  : list (list pystr) * list (list pystr) :=
  parse_lines (split NEWLINE text).

(** Classification of a raw line, as the loop body tests it. *)
Definition is_blank (raw : pystr) : bool := negb (truthy (strip raw)).

Definition is_comment (raw : pystr) : bool := startswith (strip raw) HASH.

(** The (token, tag) pair a line contributes, if it contributes one. *)
Definition data_of_line (raw : pystr) : option (pystr * pystr) :=
  if is_blank raw then None
  else if is_comment raw then None
  else match split COMMA (strip raw) with
       | [token; tag] => Some (strip token, strip tag)
       | _ => None
       end.

Fixpoint data_of_lines (data : list pystr) : list (pystr * pystr) :=
  match data with
  | [] => []
  | raw :: data' =>
      match data_of_line raw with
      | Some p => p :: data_of_lines data'
      | None => data_of_lines data'
      end
  end.

(** Text made of the given lines, joined by newlines. *)
Fixpoint unlines (ls : list pystr) : pystr :=
  match ls with
  | [] => []
  | [l] => l
  | l :: ls' => l ++ NEWLINE :: unlines ls'
  end.

(** Whether a string contains a newline. *)
Definition has_newline (s : pystr) : bool := existsb (N.eqb NEWLINE) s.

(** The sentences flushed so far are non-empty and parallel to their tag
    lists, and the two accumulators have the same length. *)
Definition parallel (st : parser_state) : Prop :=
  List.length (sentence st) = List.length (label st) /\
  Forall2 (fun s l => List.length s = List.length l /\ s <> [])
          (sentences st) (labels st).

(** Sentences flushed earlier are a frame around the rest of the scan. *)
Definition prepend (S L : list (list pystr)) (st : parser_state)
  : parser_state :=
  mk_state (S ++ sentences st) (L ++ labels st) (sentence st) (label st).

(* ================================================================= *)
(** ** Label normaliser and label vocabulary *)

(** The set literal [expected_labels]; only membership is used. *)
Definition expected_labels : list pystr :=
  [str "O"; str "B-Gene"; str "I-SNP"; str "I-Gene"; str "B-SNP"; str "B-RS"].

(** [x in s] *)
Definition contains (s : list pystr) (x : pystr) : bool :=
  existsb (pystr_eqb x) s.

Definition clean_labels (label_list : list pystr) : list pystr :=
  map (fun l => if contains expected_labels l then l else str "O") label_list.

(** The allowed tags, as a property of a tag. *)
Definition allowed (tag : pystr) : Prop :=
  tag = str "O" \/ tag = str "B-Gene" \/ tag = str "I-Gene" \/
  tag = str "B-SNP" \/ tag = str "I-SNP" \/ tag = str "B-RS".

(** [[clean_labels(label_list) for label_list in train_labels]] *)
Definition clean_corpus (corpus_labels : list (list pystr))
  : list (list pystr) :=
  map clean_labels corpus_labels.

(** What [list(set(...))] guarantees of its result: the distinct elements,
    each once, in an order the language leaves open. *)
Definition list_of_set (elems result_list : list pystr) : Prop :=
  NoDup result_list /\ forall t, In t result_list <-> In t elems.

(** [cleaned_unique_labels]: [set_order] is the order in which the
    interpreter iterates the set built from the given elements. *)
Definition cleaned_unique_labels
    (set_order : list pystr -> list pystr)
    (cleaned_train_labels : list (list pystr)) : list pystr :=
  set_order (concat cleaned_train_labels).

(** One admissible iteration order: first occurrence first. *)
Fixpoint first_seen (l : list pystr) : list pystr :=
  match l with
  | [] => []
  | x :: l' => x :: filter (fun y => negb (pystr_eqb x y)) (first_seen l')
  end.

(* ================================================================= *)
(** ** Subword alignment *)

(** The ignore sentinel. *)
Definition IGNORE : Z := (-100)%Z.

(** [word_idx == previous_word_idx] on optional word indices. *)
Definition word_idx_eqb (a b : option nat) : bool :=
  match a, b with
  | None, None => true
  | Some x, Some y => Nat.eqb x y
  | _, _ => false
  end.

(** The inner loop of [tokenize_and_align_labels] for one sentence:
    [label] are its tags, [word_ids] the tokenizer's mapping, and
    [cleaned_unique_labels] the vocabulary. *)
Fixpoint align_label_ids (cleaned_unique_labels label : list pystr)
    (previous_word_idx : option nat) (word_ids : list (option nat))
  : result (list Z) :=
  match word_ids with
  | [] => ok []
  | word_idx :: rest =>
      label_id <-
        match word_idx with
        | None => ok IGNORE
        | Some w =>
            if negb (word_idx_eqb word_idx previous_word_idx) then
              tag <- getitem label w ;;
              k <- index cleaned_unique_labels tag ;;
              ok (Z.of_nat k)
            else ok IGNORE
        end ;;
      label_ids <- align_label_ids cleaned_unique_labels label word_idx rest ;;
      ok (label_id :: label_ids)
  end.

(** The outer loop: [batch_word_ids i] is
    [tokenized_inputs.word_ids(batch_index=i)]. *)
Fixpoint align_batch (cleaned_unique_labels : list pystr)
    (batch_word_ids : nat -> list (option nat)) (i : nat)
    (examples_labels : list (list pystr)) : result (list (list Z)) :=
  match examples_labels with
  | [] => ok []
  | label :: rest =>
      label_ids <-
        align_label_ids cleaned_unique_labels label None (batch_word_ids i) ;;
      others <- align_batch cleaned_unique_labels batch_word_ids (S i) rest ;;
      ok (label_ids :: others)
  end.

Definition tokenize_and_align_labels (cleaned_unique_labels : list pystr)
    (batch_word_ids : nat -> list (option nat))
    (examples_labels : list (list pystr)) : result (list (list Z)) :=
  align_batch cleaned_unique_labels batch_word_ids 0 examples_labels.

(** Position [i] of the mapping carries word [w]. *)
Definition word_at (word_ids : list (option nat)) (i w : nat) : Prop :=
  nth_error word_ids i = Some (Some w).

(** Position [i] carries a word index that the position before it, if
    any, does not carry. *)
Definition starts_word (word_ids : list (option nat)) (i w : nat) : Prop :=
  word_at word_ids i w /\
  match i with
  | 0 => True
  | S i' => ~ word_at word_ids i' w
  end.

(** The positions of one word are consecutive, as a tokenizer lays the
    pieces of a word out. *)
Definition contiguous (word_ids : list (option nat)) : Prop :=
  forall i k j w, i <= k -> k <= j ->
    word_at word_ids i w -> word_at word_ids j w -> word_at word_ids k w.

(** Position [i] is the first one carrying word [w]. *)
Definition first_position (word_ids : list (option nat)) (i w : nat) : Prop :=
  word_at word_ids i w /\ forall i', i' < i -> ~ word_at word_ids i' w.

(** The layout a BERT-style tokenizer gives one sentence: [lead] special
    tokens, then [n] pieces for each word in turn, then [trail] special or
    padding tokens. *)
Fixpoint word_pieces (w : nat) (pieces : list nat) : list (option nat) :=
  match pieces with
  | [] => []
  | n :: pieces' => repeat (Some w) n ++ word_pieces (S w) pieces'
  end.

Definition tokenizer_word_ids (lead : nat) (pieces : list nat) (trail : nat)
  : list (option nat) :=
  repeat None lead ++ word_pieces 0 pieces ++ repeat None trail.

(* ================================================================= *)
(** ** Decoding of predictions *)

(** A two-dimensional numpy array: its shape and its items. *)
Record ndarray2 (A : Type) : Type := mk_ndarray2 {
  rows : nat;
  cols : nat;
  item2 : nat -> nat -> A
}.
Arguments mk_ndarray2 {A} _ _ _.
Arguments rows {A} _.
Arguments cols {A} _.
Arguments item2 {A} _ _ _.

(** A three-dimensional numpy array. *)
Record ndarray3 (A : Type) : Type := mk_ndarray3 {
  dim0 : nat;
  dim1 : nat;
  dim2 : nat;
  item3 : nat -> nat -> nat -> A
}.
Arguments mk_ndarray3 {A} _ _ _ _.
Arguments dim0 {A} _.
Arguments dim1 {A} _.
Arguments dim2 {A} _.
Arguments item3 {A} _ _ _ _.

(** [a[i, j]] and [a[i][j]] for indices taken from [range]. *)
Definition getitem2 {A : Type} (a : ndarray2 A) (i j : nat) : result A :=
  if Nat.ltb i (rows a) && Nat.ltb j (cols a) then ok (item2 a i j)
  else raise IndexError.

(** An array given by its rows; positions outside read [d]. *)
Definition array2_of_lists {A : Type} (d : A) (n m : nat) (l : list (list A))
  : ndarray2 A :=
  mk_ndarray2 n m (fun i j => nth j (nth i l []) d).

Definition array3_of_lists {A : Type} (d : A) (n m c : nat)
    (l : list (list (list A))) : ndarray3 A :=
  mk_ndarray3 n m c (fun i j k => nth k (nth j (nth i l []) []) d).

Section Argmax.

(** The scores are floating-point numbers in the program; the decoding
    only depends on them through the comparison numpy's scan makes. *)
Variable score : Type.
Variable score_le : score -> score -> bool.
Variable score_isnan : score -> bool.

(** numpy's scan for the first maximum: [mp] is the best score so far,
    found at [max_ind]; a NaN stops the scan. *)
Fixpoint argmax_scan (mp : score) (max_ind i : nat) (rest : list score)
  {struct rest} : nat :=
  if score_isnan mp then max_ind
  else match rest with
       | [] => max_ind
       | x :: rest' =>
           if score_le x mp then argmax_scan mp max_ind (S i) rest'
           else argmax_scan x i (S i) rest'
       end.

Definition argmax (row : list score) : result nat :=
  match row with
  | [] => raise ValueError
  | x :: rest => ok (argmax_scan x 0 1 rest)
  end.

(** The class scores of position [j] of sequence [i]. *)
Definition scores_at (predictions : ndarray3 score) (i j : nat)
  : list score :=
  map (item3 predictions i j) (seq 0 (dim2 predictions)).

(** [predictions.argmax(-1)] *)
Definition argmax_last (predictions : ndarray3 score)
  : result (ndarray2 nat) :=
  if Nat.eqb (dim2 predictions) 0 then raise ValueError
  else ok (mk_ndarray2 (dim0 predictions) (dim1 predictions)
             (fun i j =>
                match argmax (scores_at predictions i j) with
                | inr k => k
                | inl _ => 0
                end)).

(** The loop [for j in range(seq_len)] of sequence [i]; the pair is
    (predicted tags, gold tags). *)
Fixpoint decode_positions (cleaned_unique_labels : list pystr)
    (preds : ndarray2 nat) (label_ids : ndarray2 Z) (i : nat)
    (js : list nat) : result (list pystr * list pystr) :=
  match js with
  | [] => ok ([], [])
  | j :: js' =>
      gold <- getitem2 label_ids i j ;;
      if negb (Z.eqb gold IGNORE) then
        out_label <- getitem_int cleaned_unique_labels gold ;;
        p <- getitem2 preds i j ;;
        pred <- getitem_int cleaned_unique_labels (Z.of_nat p) ;;
        rest <- decode_positions cleaned_unique_labels preds label_ids i js' ;;
        ok (pred :: fst rest, out_label :: snd rest)
      else decode_positions cleaned_unique_labels preds label_ids i js'
  end.

(** The loop [for i in range(batch_size)]. *)
Fixpoint decode_sequences (cleaned_unique_labels : list pystr)
    (preds : ndarray2 nat) (label_ids : ndarray2 Z) (seq_len : nat)
    (batch : list nat) : result (list (list pystr) * list (list pystr)) :=
  match batch with
  | [] => ok ([], [])
  | i :: batch' =>
      row <- decode_positions cleaned_unique_labels preds label_ids i
               (seq 0 seq_len) ;;
      rest <- decode_sequences cleaned_unique_labels preds label_ids
                seq_len batch' ;;
      ok (fst row :: fst rest, snd row :: snd rest)
  end.

(** [align_predictions]; the result is [(preds_list, out_label_list)]. *)
Definition align_predictions (cleaned_unique_labels : list pystr)
    (predictions : ndarray3 score) (label_ids : ndarray2 Z)
  : result (list (list pystr) * list (list pystr)) :=
  preds <- argmax_last predictions ;;
  let batch_size := rows preds in
  let seq_len := cols preds in
  decode_sequences cleaned_unique_labels preds label_ids seq_len
    (seq 0 batch_size).

End Argmax.

Arguments argmax {score} _ _ _.
Arguments scores_at {score} _ _ _.
Arguments argmax_last {score} _ _ _.
Arguments align_predictions {score} _ _ _ _ _.

(** Gold fed back as predictions: wherever the gold id is not the
    sentinel, the best-scoring class is the gold id. *)
Definition gold_as_predictions {score : Type}
    (score_le : score -> score -> bool) (score_isnan : score -> bool)
    (predictions : ndarray3 score) (label_ids : ndarray2 Z) : Prop :=
  forall i j, i < dim0 predictions -> j < dim1 predictions ->
    item2 label_ids i j <> IGNORE ->
    exists k, argmax score_le score_isnan (scores_at predictions i j) = ok k /\
              Z.of_nat k = item2 label_ids i j.

(** The gold ids of sequence [i] that are not the sentinel, in order. *)
Definition gold_ids (label_ids : ndarray2 Z) (seq_len i : nat) : list Z :=
  filter (fun g => negb (Z.eqb g IGNORE))
         (map (item2 label_ids i) (seq 0 seq_len)).

(* ================================================================= *)
(** ** One sweep trial: [train()] *)

(** A raised Python exception: whether it is an instance of [Exception]
    (a [KeyboardInterrupt] or a [SystemExit] is not) and its [str(e)]. *)
Record pyexc : Type := mk_exc {
  exc_is_Exception : bool;
  exc_str : pystr
}.

(** What the trial does to its collaborators, in order. *)
Inductive event : Type :=
| WandbInit
| TrainerTrain
| TrainerEvaluate
| TrainerPredict
| Report
| LoggerError (message : pystr)
| WandbAlert (title text : pystr)
| RunFinish.

(** An effectful computation: the events it performed and how it ended. *)
Definition action (A : Type) : Type := (list event * (pyexc + A))%type.

Definition ret {A : Type} (a : A) : action A := ([], inr a).

Definition andthen {A B : Type} (m : action A) (k : A -> action B)
  : action B :=
  match m with
  | (t, inl e) => (t, inl e)
  | (t, inr a) => let (t', r) := k a in (t ++ t', r)
  end.

Notation "x <-- m ;;; k" := (andthen m (fun x => k))
  (at level 61, m at next level, right associativity).

(** A call to a collaborator that returns nothing of interest. *)
Definition call (ev : event) (raised : option pyexc) : action unit :=
  ([ev], match raised with Some e => inl e | None => inr tt end).

(** A call to a collaborator that returns a value. *)
Definition call_for {A : Type} (ev : event) (outcome : pyexc + A)
  : action A :=
  ([ev], outcome).

(** The exception object of an error raised by the modelled code itself;
    both kinds are subclasses of [Exception].  The interpreter and numpy
    compose the text [str(e)] from values the model does not keep, so the
    text is not computed here: [text] gives it. *)
Definition exc_of_exn (text : exn -> pystr) (e : exn) : pyexc :=
  mk_exc true (text e).

Definition lift {A : Type} (text : exn -> pystr) (r : result A) : action A :=
  match r with
  | inl e => ([], inl (exc_of_exn text e))
  | inr a => ([], inr a)
  end.

(** [try: body / except Exception as e: handler(e) / finally: final] *)
Definition try_except_finally {A : Type} (body : action A)
    (handler : pyexc -> action A) (final : action unit) : action A :=
  let attempt :=
    match body with
    | (t, inr a) => (t, inr a)
    | (t, inl e) =>
        if exc_is_Exception e
        then let (t', r) := handler e in (t ++ t', r)
        else (t, inl e)
    end in
  match attempt, final with
  | (t, r), (t', inl e') => (t ++ t', inl e')
  | (t, r), (t', inr _) => (t ++ t', r)
  end.

Section Trial.

Variable score : Type.
Variable score_le : score -> score -> bool.
Variable score_isnan : score -> bool.

(** How the collaborators behave during one trial: [None] is a normal
    return, [Some e] the exception raised.  [error_text] is the text
    [str(e)] the interpreter gives an error that the decoding of this
    trial's predictions raises. *)
Record collaborators : Type := mk_collaborators {
  wandb_init : option pyexc;
  setup_and_train : option pyexc;
  evaluate_and_log : option pyexc;
  trainer_predict : pyexc + (ndarray3 score * ndarray2 Z);
  report_and_log : list (list pystr) -> list (list pystr) -> option pyexc;
  logger_error : pystr -> option pyexc;
  wandb_alert : pystr -> pystr -> option pyexc;
  run_finish : option pyexc;
  error_text : exn -> pystr
}.

(** The body of the [try] block. *)
Definition try_block (c : collaborators) (cleaned_unique_labels : list pystr)
  : action unit :=
  _ <-- call TrainerTrain (setup_and_train c) ;;;
  _ <-- call TrainerEvaluate (evaluate_and_log c) ;;;
  test_predictions <-- call_for TrainerPredict (trainer_predict c) ;;;
  decoded <-- lift (error_text c)
                (align_predictions score_le score_isnan
                   cleaned_unique_labels
                   (fst test_predictions) (snd test_predictions)) ;;;
  call Report (report_and_log c (snd decoded) (fst decoded)).

Definition error_message (e : pyexc) : pystr :=
  str "Error during training or evaluation: " ++ exc_str e.

Definition alert_title : pystr := str "Training or Evaluation Error".

Definition alert_text (e : pyexc) : pystr :=
  str "An error occurred during training or evaluation: " ++ exc_str e.

(** The [except Exception as e] clause. *)
Definition except_clause (c : collaborators) (e : pyexc) : action unit :=
  _ <-- call (LoggerError (error_message e))
             (logger_error c (error_message e)) ;;;
  call (WandbAlert alert_title (alert_text e))
       (wandb_alert c alert_title (alert_text e)).

Definition train (c : collaborators) (cleaned_unique_labels : list pystr)
  : action unit :=
  _ <-- call WandbInit (wandb_init c) ;;;
  try_except_finally
    (try_block c cleaned_unique_labels)
    (except_clause c)
    (call RunFinish (run_finish c)).

End Trial.

Arguments mk_collaborators {score} _ _ _ _ _ _ _ _ _.
Arguments wandb_init {score} _.
Arguments setup_and_train {score} _.
Arguments evaluate_and_log {score} _.
Arguments trainer_predict {score} _.
Arguments report_and_log {score} _ _ _.
Arguments logger_error {score} _ _.
Arguments wandb_alert {score} _ _ _.
Arguments run_finish {score} _.
Arguments error_text {score} _ _.
Arguments try_block {score} _ _ _ _.
Arguments except_clause {score} _ _.
Arguments train {score} _ _ _ _.

(** The alerts among the events of a trace. *)
Definition is_alert (ev : event) : bool :=
  match ev with
  | WandbAlert _ _ => true
  | _ => false
  end.


(** The text of the two errors the decoding raises in the sample trials:
    a list index out of range, and numpy's argmax of an empty axis. *)
Definition sample_error_text (e : exn) : pystr :=
  match e with
  | IndexError => str "list index out of range"
  | ValueError => str "attempt to get argmax of an empty sequence"
  end.

(** A trial whose collaborators all return, except that the training step
    raises what is given; the test predictions are one sequence of three
    positions over two classes. *)
Definition trial_with_training (raised : option pyexc) : collaborators Z :=
  mk_collaborators None raised None
    (inr (array3_of_lists 0%Z 1 3 2 [[[5; 1]; [0; 7]; [2; 2]]]%Z,
          array2_of_lists 0%Z 1 3 [[-100; 1; 0]]%Z))
    (fun _ _ => None) (fun _ => None) (fun _ _ => None) None
    sample_error_text.

Definition out_of_memory : pyexc := mk_exc true (str "CUDA out of memory").



(* ================================================================= *)
(** ** Notions used to state further properties *)

(** Every character of the string is whitespace. *)
Definition all_space (s : pystr) : bool := forallb isspace s.

(** The string has no whitespace at either end. *)
Definition stripped (s : pystr) : Prop := strip s = s.

(** The comment lines among the lines of an input. *)
Definition comment_lines (data : list pystr) : list pystr :=
  filter is_comment data.

(** Number of commas of a string. *)
Definition commas (s : pystr) : nat := count_occ N.eq_dec s COMMA.

(** The text with every line feed preceded by a carriage return. *)
Fixpoint crlf (text : pystr) : pystr :=
  match text with
  | [] => []
  | c :: text' =>
      if N.eqb c NEWLINE then 13%N :: NEWLINE :: crlf text' else c :: crlf text'
  end.

(** What a token or a tag returned by the loader never contains. *)
Definition plain (t : pystr) : Prop :=
  stripped t /\ ~ In COMMA t /\ ~ In NEWLINE t.

(** A data line: token, comma, tag. *)
Definition data_line (p : pystr * pystr) : pystr := fst p ++ COMMA :: snd p.

(** The lines that list a corpus: before each sentence a comment line,
    then one data line per token. *)
Fixpoint corpus_lines (corpus : list (list (pystr * pystr))) : list pystr :=
  match corpus with
  | [] => []
  | s :: rest => [HASH] :: map data_line s ++ corpus_lines rest
  end.

(** A token and a tag that a data line can carry unchanged. *)
Definition writable (p : pystr * pystr) : Prop :=
  plain (fst p) /\ startswith (fst p) HASH = false /\ plain (snd p).

(** The word index the loop holds in [previous_word_idx] when it reaches
    position [i], having started with [prev]. *)
Definition previous_at (prev : option nat) (word_ids : list (option nat))
    (i : nat) : option nat :=
  match i with
  | 0 => prev
  | S i' => match nth_error word_ids i' with
            | Some p => p
            | None => None
            end
  end.

(** A label id is the sentinel or an index into the vocabulary. *)
Definition valid_label_id (vocab : list pystr) (x : Z) : Prop :=
  x = IGNORE \/ (0 <= x < Z.of_nat (List.length vocab))%Z.

(** Sample arrays: one sequence of three positions over two classes, with
    gold labels -100, 1, 0; and a gold array holding only -100. *)
Definition sample_predictions : ndarray3 Z :=
  array3_of_lists 0%Z 1 3 2 [[[5; 1]; [0; 7]; [9; 2]]]%Z.

Definition sample_label_ids : ndarray2 Z :=
  array2_of_lists 0%Z 1 3 [[-100; 1; 0]]%Z.

Definition padding_label_ids : ndarray2 Z :=
  array2_of_lists 0%Z 1 3 [[-100; -100; -100]]%Z.

(** A trial in which training runs out of memory and the alert call
    itself fails. *)
Definition connection_error : pyexc := mk_exc true (str "connection lost").

Definition trial_with_failing_alert : collaborators Z :=
  mk_collaborators None (Some out_of_memory) None
    (inr (sample_predictions, sample_label_ids))
    (fun _ _ => None) (fun _ => None) (fun _ _ => Some connection_error) None
    sample_error_text.

(** A trial whose test set carries a gold label outside the vocabulary. *)
Definition trial_with_bad_gold : collaborators Z :=
  mk_collaborators None None None
    (inr (array3_of_lists 0%Z 1 1 1 [[[0]]]%Z,
          array2_of_lists 0%Z 1 1 [[7]]%Z))
    (fun _ _ => None) (fun _ => None) (fun _ _ => None) None
    sample_error_text.

(** A trial whose evaluation step raises what is given. *)
Definition trial_with_evaluation (raised : option pyexc) : collaborators Z :=
  mk_collaborators None None raised
    (inr (sample_predictions, sample_label_ids))
    (fun _ _ => None) (fun _ => None) (fun _ _ => None) None
    sample_error_text.

Definition CR : pychar := 13%N.

(** What reading a file opened with [open(name, 'r')] delivers for the
    decoded characters [raw] of the file: with universal newlines, a
    carriage return followed by a line feed, and a carriage return alone,
    each become one line feed. *)
Fixpoint universal_newlines (raw : pystr) : pystr :=
  match raw with
  | [] => []
  | c :: rest =>
      if N.eqb c CR then
        NEWLINE ::
          match rest with
          | [] => []
          | d :: rest' =>
              if N.eqb d NEWLINE then universal_newlines rest'
              else universal_newlines rest
          end
      else c :: universal_newlines rest
  end.

(** [readline()] on a text stream positioned at its start, whose
    translated text is [content]: the characters up to and including the
    first line feed. *)
Fixpoint readline (content : pystr) : pystr :=
  match content with
  | [] => []
  | c :: rest => if N.eqb c NEWLINE then [c] else c :: readline rest
  end.

(** [keyFile = open('wandb.key', 'r')] and
    [WANDB_API_KEY = keyFile.readline().rstrip()], for a key file whose
    decoded characters are [raw]. *)
Definition WANDB_API_KEY (raw : pystr) : pystr :=
  rstrip (readline (universal_newlines raw)).

(** The characters of a text before its first carriage return or line
    feed. *)
Fixpoint before_line_end (raw : pystr) : pystr :=
  match raw with
  | [] => []
  | c :: rest =>
      if N.eqb c CR || N.eqb c NEWLINE then [] else c :: before_line_end rest
  end.

(** [pd.DataFrame({'sentence': ..., 'labels': ...})]: one row per index;
    columns of different lengths are refused with ValueError. *)
Definition DataFrame (sentence_col labels_col : list (list pystr))
  : result (list (list pystr * list pystr)) :=
  if Nat.eqb (List.length sentence_col) (List.length labels_col)
  then ok (combine sentence_col labels_col)
  else raise ValueError.

(** [df['labels'] = values]: the column is replaced; a list whose length
    differs from the number of rows is refused with ValueError. *)
Definition set_labels (df : list (list pystr * list pystr))
    (values : list (list pystr)) : result (list (list pystr * list pystr)) :=
  if Nat.eqb (List.length values) (List.length df)
  then ok (combine (map fst df) values)
  else raise ValueError.

(** The frame of one corpus as the module builds it: parse, build the
    frame, clean the labels, replace the column. *)
Definition prepared_frame (text : pystr)
  : result (list (list pystr * list pystr)) :=
  let parsed := load_and_parse_iob text in
  df <- DataFrame (fst parsed) (snd parsed) ;;
  set_labels df (clean_corpus (snd parsed)).

(* ================================================================= *)
(** * Properties *)

(** ** Strings *)

Lemma pystr_eqb_eq (a b : pystr) : pystr_eqb a b = true <-> a = b.
Proof.
  revert b; induction a as [|x a IH]; intros [|y b]; simpl;
    try (split; [discriminate | discriminate]); try tauto.
  rewrite andb_true_iff, N.eqb_eq, IH.
  split; [intros [-> ->]; reflexivity | intros H; inversion H; auto].
Qed.

Lemma pystr_eqb_refl (a : pystr) : pystr_eqb a a = true.
Proof. apply pystr_eqb_eq; reflexivity. Qed.

Lemma pystr_eqb_neq (a b : pystr) : pystr_eqb a b = false <-> a <> b.
Proof.
  rewrite <- pystr_eqb_eq. destruct (pystr_eqb a b); split; congruence.
Qed.

Lemma split_not_nil (sep : pychar) (s : pystr) : split sep s <> [].
Proof.
  destruct s as [|c s]; simpl; [discriminate|].
  destruct (N.eqb c sep); [discriminate|].
  destruct (split sep s); discriminate.
Qed.

Lemma split_app (sep : pychar) (a b : pystr) :
  split sep (a ++ sep :: b) = split sep a ++ split sep b.
Proof.
  induction a as [|c a IH]; simpl.
  - rewrite N.eqb_refl. reflexivity.
  - destruct (N.eqb c sep); [rewrite IH; reflexivity|].
    rewrite IH. destruct (split sep a) as [|p ps] eqn:E.
    + exfalso; exact (split_not_nil sep a E).
    + reflexivity.
Qed.

Lemma split_no_sep (sep : pychar) (s : pystr) :
  ~ In sep s -> split sep s = [s].
Proof.
  induction s as [|c s IH]; simpl; intros H; [reflexivity|].
  destruct (N.eqb c sep) eqn:E.
  - apply N.eqb_eq in E. exfalso; apply H; left; exact E.
  - rewrite IH by tauto. reflexivity.
Qed.

Lemma split_unlines (l : pystr) (ls : list pystr) :
  Forall (fun x => ~ In NEWLINE x) (l :: ls) ->
  split NEWLINE (unlines (l :: ls)) = l :: ls.
Proof.
  revert l; induction ls as [|l' ls IH]; intros l H.
  - simpl. apply split_no_sep. inversion H; assumption.
  - change (unlines (l :: l' :: ls)) with (l ++ NEWLINE :: unlines (l' :: ls)).
    rewrite split_app, IH by (inversion H; assumption).
    rewrite split_no_sep by (inversion H; assumption). reflexivity.
Qed.

(** ** Loader: the accumulators stay parallel *)

Lemma parallel_initial : parallel initial_state.
Proof. split; [reflexivity | constructor]. Qed.

Lemma parallel_flush (st : parser_state) :
  parallel st -> sentence st <> [] -> parallel (flush st).
Proof.
  intros [Hl Hf] Hne. split; [reflexivity|]. simpl.
  apply Forall2_app; [assumption|]. constructor; [split; assumption | constructor].
Qed.

Lemma truthy_true {A : Type} (l : list A) : truthy l = true <-> l <> [].
Proof. destruct l; simpl; split; congruence. Qed.

Lemma process_line_parallel (st : parser_state) (raw : pystr) :
  parallel st -> parallel (process_line st raw).
Proof.
  intros H. unfold process_line.
  destruct (negb (truthy (strip raw))); [assumption|].
  destruct (startswith (strip raw) HASH).
  - destruct (truthy (sentence st)) eqn:E; [|assumption].
    apply parallel_flush; [assumption | apply truthy_true; assumption].
  - destruct (split COMMA (strip raw)) as [|token [|tag [|x parts]]];
      try assumption.
    destruct H as [Hl Hf]. split; simpl; [|assumption].
    rewrite !length_app, Hl. reflexivity.
Qed.

Lemma fold_process_parallel (data : list pystr) (st : parser_state) :
  parallel st -> parallel (fold_left process_line data st).
Proof.
  revert st; induction data as [|raw data IH]; intros st H; simpl;
    [assumption | apply IH, process_line_parallel, H].
Qed.

Lemma finish_parallel (st : parser_state) :
  parallel st ->
  Forall2 (fun s l => List.length s = List.length l /\ s <> [])
          (fst (finish st)) (snd (finish st)).
Proof.
  intros [Hl Hf]. unfold finish.
  destruct (truthy (sentence st)) eqn:E; simpl; [|assumption].
  apply Forall2_app; [assumption|].
  constructor; [split; [assumption | apply truthy_true; assumption] | constructor].
Qed.

Lemma parse_lines_parallel (data : list pystr) :
  Forall2 (fun s l => List.length s = List.length l /\ s <> [])
          (fst (parse_lines data)) (snd (parse_lines data)).
Proof.
  apply finish_parallel, fold_process_parallel, parallel_initial.
Qed.

(** C4: for every input text, the sentences and the tag lists returned by
    [load_and_parse_iob] have the same number of entries, and the token
    list and the tag list at each index have the same length. *)
Theorem load_and_parse_iob_parallel (text : pystr) :
  List.length (fst (load_and_parse_iob text))
  = List.length (snd (load_and_parse_iob text)) /\
  Forall2 (fun tokens tags => List.length tokens = List.length tags)
          (fst (load_and_parse_iob text)) (snd (load_and_parse_iob text)).
Proof.
  unfold load_and_parse_iob.
  pose proof (parse_lines_parallel (split NEWLINE text)) as H.
  split.
  - eapply Forall2_length; eassumption.
  - eapply Forall2_impl; [|eassumption]. intros s l [Hlen _]; exact Hlen.
Qed.

(** ** Loader: what each kind of line does *)

Lemma process_blank (st : parser_state) (raw : pystr) :
  is_blank raw = true -> process_line st raw = st.
Proof.
  unfold is_blank, process_line. intros ->. reflexivity.
Qed.

Lemma comment_not_blank (raw : pystr) :
  is_comment raw = true -> is_blank raw = false.
Proof.
  unfold is_comment, is_blank. destruct (strip raw); simpl; congruence.
Qed.

Lemma process_comment (st : parser_state) (raw : pystr) :
  is_comment raw = true ->
  process_line st raw = if truthy (sentence st) then flush st else st.
Proof.
  intros H. pose proof (comment_not_blank raw H) as Hb.
  unfold is_comment in H. unfold is_blank in Hb. unfold process_line.
  rewrite Hb, H. reflexivity.
Qed.

Lemma process_data (st : parser_state) (raw token tag : pystr) :
  data_of_line raw = Some (token, tag) ->
  process_line st raw
  = mk_state (sentences st) (labels st)
             (sentence st ++ [token]) (label st ++ [tag]).
Proof.
  unfold data_of_line, is_blank, is_comment, process_line.
  destruct (negb (truthy (strip raw))); [discriminate|].
  destruct (startswith (strip raw) HASH); [discriminate|].
  destruct (split COMMA (strip raw)) as [|a [|b [|x parts]]];
    try discriminate.
  intros H; inversion H; reflexivity.
Qed.

Lemma process_dropped (st : parser_state) (raw : pystr) :
  data_of_line raw = None -> is_comment raw = false ->
  process_line st raw = st.
Proof.
  unfold data_of_line, is_blank, is_comment, process_line.
  destruct (negb (truthy (strip raw))); [reflexivity|].
  intros H C. rewrite C in *.
  destruct (split COMMA (strip raw)) as [|a [|b [|x parts]]];
    try reflexivity; discriminate.
Qed.

Lemma comment_no_data (raw : pystr) :
  is_comment raw = true -> data_of_line raw = None.
Proof.
  intros H. unfold data_of_line. rewrite H.
  destruct (is_blank raw); reflexivity.
Qed.

Lemma blank_no_data (raw : pystr) :
  is_blank raw = true -> data_of_line raw = None.
Proof. intros H. unfold data_of_line. rewrite H. reflexivity. Qed.

Lemma blank_not_comment (raw : pystr) :
  is_blank raw = true -> is_comment raw = false.
Proof.
  intros H. destruct (is_comment raw) eqn:E; [|reflexivity].
  apply comment_not_blank in E. congruence.
Qed.

(** Without comment lines every data line lands in the accumulator. *)
Lemma fold_no_comment (data : list pystr) (st : parser_state) :
  forallb (fun raw => negb (is_comment raw)) data = true ->
  fold_left process_line data st
  = mk_state (sentences st) (labels st)
             (sentence st ++ map fst (data_of_lines data))
             (label st ++ map snd (data_of_lines data)).
Proof.
  revert st; induction data as [|raw data IH]; intros st H; simpl.
  - rewrite !app_nil_r. destruct st; reflexivity.
  - simpl in H. apply andb_true_iff in H as [Hc H].
    apply negb_true_iff in Hc.
    destruct (data_of_line raw) as [[token tag]|] eqn:E.
    + rewrite (process_data st raw token tag E), IH by assumption. simpl.
      rewrite <- !app_assoc. reflexivity.
    + rewrite (process_dropped st raw E Hc). apply IH; assumption.
Qed.

Lemma parse_lines_no_comment (data : list pystr) :
  forallb (fun raw => negb (is_comment raw)) data = true ->
  parse_lines data
  = if truthy (data_of_lines data)
    then ([map fst (data_of_lines data)], [map snd (data_of_lines data)])
    else ([], []).
Proof.
  intros H. unfold parse_lines. rewrite fold_no_comment by assumption.
  unfold finish. simpl. destruct (data_of_lines data); reflexivity.
Qed.

Lemma process_line_prepend (S L : list (list pystr)) (st : parser_state)
    (raw : pystr) :
  process_line (prepend S L st) raw = prepend S L (process_line st raw).
Proof.
  unfold process_line.
  destruct (negb (truthy (strip raw))); [reflexivity|].
  destruct (startswith (strip raw) HASH).
  - simpl. destruct (truthy (sentence st)); [|reflexivity].
    unfold flush, prepend. simpl. rewrite !app_assoc. reflexivity.
  - destruct (split COMMA (strip raw)) as [|a [|b [|x parts]]]; reflexivity.
Qed.

Lemma fold_prepend (S L : list (list pystr)) (data : list pystr)
    (st : parser_state) :
  fold_left process_line data (prepend S L st)
  = prepend S L (fold_left process_line data st).
Proof.
  revert st; induction data as [|raw data IH]; intros st; simpl;
    [reflexivity | rewrite process_line_prepend; apply IH].
Qed.

Lemma finish_prepend (S L : list (list pystr)) (st : parser_state) :
  finish (prepend S L st) = (S ++ fst (finish st), L ++ snd (finish st)).
Proof.
  unfold finish. simpl. destruct (truthy (sentence st)); simpl;
    rewrite ?app_assoc; reflexivity.
Qed.

Lemma comment_after_parallel (st : parser_state) (raw : pystr) :
  parallel st -> is_comment raw = true ->
  process_line st raw
  = prepend (fst (finish st)) (snd (finish st)) initial_state.
Proof.
  intros [Hl _] H. rewrite process_comment by assumption.
  unfold finish, prepend, flush. destruct st as [S L s l]; simpl in *.
  destruct s as [|x s]; simpl.
  - destruct l; [|discriminate]. rewrite !app_nil_r. reflexivity.
  - rewrite !app_nil_r. reflexivity.
Qed.

(** A comment line ends the parse of what precedes it and starts a fresh
    parse of what follows. *)
Lemma parse_lines_comment (pre post : list pystr) (raw : pystr) :
  is_comment raw = true ->
  parse_lines (pre ++ raw :: post)
  = (fst (parse_lines pre) ++ fst (parse_lines post),
     snd (parse_lines pre) ++ snd (parse_lines post)).
Proof.
  intros H. unfold parse_lines. rewrite fold_left_app. simpl.
  rewrite (comment_after_parallel _ raw
             (fold_process_parallel pre _ parallel_initial) H).
  rewrite fold_prepend, finish_prepend. reflexivity.
Qed.

(** A blank line can be removed without changing the parse. *)
Lemma parse_lines_blank (pre post : list pystr) (raw : pystr) :
  is_blank raw = true ->
  parse_lines (pre ++ raw :: post) = parse_lines (pre ++ post).
Proof.
  intros H. unfold parse_lines. rewrite !fold_left_app. simpl.
  rewrite process_blank by assumption. reflexivity.
Qed.

Lemma fold_no_data (data : list pystr) :
  data_of_lines data = [] ->
  fold_left process_line data initial_state = initial_state.
Proof.
  induction data as [|raw data IH]; simpl; [reflexivity|].
  destruct (data_of_line raw) as [p|] eqn:E; [discriminate|]. intros H.
  destruct (is_comment raw) eqn:C.
  - rewrite process_comment by assumption. simpl. apply IH, H.
  - rewrite process_dropped by assumption. apply IH, H.
Qed.

Lemma load_unlines (ls : list pystr) :
  Forall (fun x => ~ In NEWLINE x) ls ->
  load_and_parse_iob (unlines ls) = parse_lines ls.
Proof.
  intros H. unfold load_and_parse_iob. destruct ls as [|l ls].
  - reflexivity.
  - rewrite split_unlines by assumption. reflexivity.
Qed.

Lemma has_newline_false (s : pystr) :
  has_newline s = false -> ~ In NEWLINE s.
Proof.
  unfold has_newline. intros H Hin.
  assert (existsb (N.eqb NEWLINE) s = true) as E
    by (apply existsb_exists; exists NEWLINE; split;
        [assumption | apply N.eqb_refl]).
  congruence.
Qed.

(** ** Loader: the claims *)

(** C10: every sentence returned by [load_and_parse_iob], and every tag
    list returned with it, is non-empty, whatever the input text; and a
    text none of whose lines is a well-formed data line yields no sentence
    at all. *)
Theorem load_and_parse_iob_no_empty_sentence (text : pystr) :
  Forall (fun tokens => tokens <> []) (fst (load_and_parse_iob text)) /\
  Forall (fun tags => tags <> []) (snd (load_and_parse_iob text)) /\
  (data_of_lines (split NEWLINE text) = [] ->
   load_and_parse_iob text = ([], [])).
Proof.
  unfold load_and_parse_iob.
  pose proof (parse_lines_parallel (split NEWLINE text)) as H.
  repeat split.
  - induction H as [|s l S L [_ Hne] _ IH]; constructor; assumption.
  - induction H as [|s l S L [Hlen Hne] _ IH]; constructor; [|assumption].
    destruct l; [destruct s; [congruence | discriminate] | discriminate].
  - intros Hd. unfold parse_lines. rewrite fold_no_data by assumption.
    reflexivity.
Qed.

Lemma load_and_parse_iob_no_empty_sentence_witness :
  load_and_parse_iob (unlines [str "# a"; str "# b"; str ""; str "oops"])
  = ([], []).
Proof.
  apply (load_and_parse_iob_no_empty_sentence
           (unlines [str "# a"; str "# b"; str ""; str "oops"])).
  vm_compute. reflexivity.
Defined.

(** C7: a line whose stripped form starts with [#] flushes the
    accumulators exactly when the sentence in progress is non-empty, leaves
    both accumulators empty and adds no token: the text before it is parsed
    as if the input ended there and the text after it is parsed afresh.
    After the last line a sentence still in progress is flushed.  The lines
    "Arg123,B-Gene", "His,I-Gene", a comment and "The,O" give the sentence
    (Arg123 His / B-Gene I-Gene) and then the sentence (The / O). *)
Theorem comment_line_flushes (st : parser_state) (t1 raw t2 : pystr) :
  is_comment raw = true -> has_newline raw = false ->
  process_line st raw = (if truthy (sentence st) then flush st else st) /\
  (parallel st ->
   sentence (process_line st raw) = [] /\ label (process_line st raw) = []) /\
  load_and_parse_iob (t1 ++ NEWLINE :: raw ++ NEWLINE :: t2)
  = (fst (load_and_parse_iob t1) ++ fst (load_and_parse_iob t2),
     snd (load_and_parse_iob t1) ++ snd (load_and_parse_iob t2)) /\
  (sentence (fold_left process_line (split NEWLINE t1) initial_state) <> [] ->
   load_and_parse_iob t1
   = (sentences (fold_left process_line (split NEWLINE t1) initial_state)
        ++ [sentence (fold_left process_line (split NEWLINE t1) initial_state)],
      labels (fold_left process_line (split NEWLINE t1) initial_state)
        ++ [label (fold_left process_line (split NEWLINE t1) initial_state)])) /\
  load_and_parse_iob
    (unlines [str "Arg123,B-Gene"; str "His,I-Gene"; str "# next"; str "The,O"])
  = ([[str "Arg123"; str "His"]; [str "The"]],
     [[str "B-Gene"; str "I-Gene"]; [str "O"]]).
Proof.
  intros Hc Hn. repeat split.
  - apply process_comment; assumption.
  - rewrite comment_after_parallel by assumption. reflexivity.
  - rewrite comment_after_parallel by assumption. reflexivity.
  - unfold load_and_parse_iob.
    rewrite split_app, split_app.
    rewrite (split_no_sep NEWLINE raw) by (apply has_newline_false; assumption).
    apply parse_lines_comment; assumption.
  - intros Hne. unfold load_and_parse_iob, parse_lines, finish.
    apply truthy_true in Hne. rewrite Hne. reflexivity.
Qed.

Lemma comment_line_flushes_witness :
  process_line (mk_state [] [] [str "Arg123"] [str "B-Gene"]) (str "# next")
  = mk_state [[str "Arg123"]] [[str "B-Gene"]] [] [] /\
  load_and_parse_iob
    (str "Arg123,B-Gene" ++ NEWLINE :: str "# next" ++ NEWLINE :: str "The,O")
  = ([[str "Arg123"]; [str "The"]], [[str "B-Gene"]; [str "O"]]).
Proof.
  destruct (comment_line_flushes
              (mk_state [] [] [str "Arg123"] [str "B-Gene"])
              (str "Arg123,B-Gene") (str "# next") (str "The,O")
              eq_refl eq_refl) as [H1 [_ [H3 _]]].
  split; [exact H1 | exact H3].
Defined.

(** C8: a line that is empty after stripping leaves the parser state
    untouched, so removing it from the input does not change the result;
    and in an input without comment lines all data lines, whatever blank
    lines lie between them, end up in one and the same sentence. *)
Theorem blank_line_skipped (st : parser_state) (pre post : list pystr)
    (raw : pystr) :
  is_blank raw = true ->
  process_line st raw = st /\
  parse_lines (pre ++ raw :: post) = parse_lines (pre ++ post) /\
  (Forall (fun x => has_newline x = false) (pre ++ raw :: post) ->
   load_and_parse_iob (unlines (pre ++ raw :: post))
   = load_and_parse_iob (unlines (pre ++ post))) /\
  (forallb (fun x => negb (is_comment x)) (pre ++ raw :: post) = true ->
   parse_lines (pre ++ raw :: post)
   = if truthy (data_of_lines (pre ++ post))
     then ([map fst (data_of_lines (pre ++ post))],
           [map snd (data_of_lines (pre ++ post))])
     else ([], [])).
Proof.
  intros Hb. repeat split.
  - apply process_blank; assumption.
  - apply parse_lines_blank; assumption.
  - intros Hn.
    assert (Forall (fun x => ~ In NEWLINE x) (pre ++ raw :: post)) as Hn'
      by (eapply Forall_impl; [|exact Hn]; intros a; apply has_newline_false).
    rewrite !load_unlines; [apply parse_lines_blank; assumption | | assumption].
    apply Forall_app in Hn' as [H1 H2]. apply Forall_app; split;
      [assumption | inversion H2; assumption].
  - intros Hc. rewrite parse_lines_blank by assumption.
    apply parse_lines_no_comment.
    rewrite forallb_app in *. simpl in Hc.
    apply andb_true_iff in Hc as [H1 H2].
    apply andb_true_iff in H2 as [_ H2]. rewrite H1, H2. reflexivity.
Qed.

Lemma blank_line_skipped_witness :
  load_and_parse_iob (unlines [str "A,O"; str "  "; str ""; str "B,B-RS"])
  = ([[str "A"; str "B"]], [[str "O"; str "B-RS"]]).
Proof.
  destruct (blank_line_skipped initial_state [str "A,O"]
              [str ""; str "B,B-RS"] (str "  ") eq_refl) as [_ [_ [H _]]].
  etransitivity; [exact (H ltac:(repeat constructor)) | vm_compute; reflexivity].
Defined.

(** ** Label normaliser *)

Lemma contains_In (s : list pystr) (x : pystr) :
  contains s x = true <-> In x s.
Proof.
  unfold contains. rewrite existsb_exists. split.
  - intros [y [Hin E]]. apply pystr_eqb_eq in E. subst. assumption.
  - intros Hin. exists x. split; [assumption | apply pystr_eqb_refl].
Qed.

Lemma contains_expected (tag : pystr) :
  contains expected_labels tag = true <-> allowed tag.
Proof.
  rewrite contains_In. unfold expected_labels, allowed. simpl.
  intuition congruence.
Qed.

Lemma allowed_O : allowed (str "O").
Proof. left; reflexivity. Qed.

Lemma clean_labels_nth (label_list : list pystr) (i : nat) (tag : pystr) :
  nth_error label_list i = Some tag ->
  nth_error (clean_labels label_list) i
  = Some (if contains expected_labels tag then tag else str "O").
Proof.
  intros H. unfold clean_labels. rewrite nth_error_map, H. reflexivity.
Qed.

Lemma clean_labels_cons (tag : pystr) (l : list pystr) :
  clean_labels (tag :: l)
  = (if contains expected_labels tag then tag else str "O") :: clean_labels l.
Proof. reflexivity. Qed.

Lemma clean_labels_allowed (label_list : list pystr) :
  Forall allowed (clean_labels label_list).
Proof.
  induction label_list as [|tag l IH]; [constructor|].
  rewrite clean_labels_cons. constructor; [|exact IH].
  destruct (contains expected_labels tag) eqn:E;
    [apply contains_expected; exact E | apply allowed_O].
Qed.

Lemma clean_labels_fixed (label_list : list pystr) :
  Forall allowed label_list -> clean_labels label_list = label_list.
Proof.
  induction 1 as [|tag l Ha _ IH]; [reflexivity|].
  rewrite clean_labels_cons. apply contains_expected in Ha.
  rewrite Ha, IH. reflexivity.
Qed.

(** C5: [clean_labels] returns, for every list of tags, a list of the same
    length whose entry at each position is the input tag when that tag is
    one of O, B-Gene, I-Gene, B-SNP, I-SNP, B-RS and is "O" otherwise; in
    particular every occurrence of "B-Disease" becomes "O" where it
    stands. *)
Theorem clean_labels_spec (label_list : list pystr) :
  List.length (clean_labels label_list) = List.length label_list /\
  (forall i tag, nth_error label_list i = Some tag ->
     (allowed tag -> nth_error (clean_labels label_list) i = Some tag) /\
     (~ allowed tag ->
      nth_error (clean_labels label_list) i = Some (str "O"))) /\
  (forall i, nth_error label_list i = Some (str "B-Disease") ->
     nth_error (clean_labels label_list) i = Some (str "O")) /\
  (forall pre post,
     clean_labels (pre ++ str "B-Disease" :: post)
     = clean_labels pre ++ str "O" :: clean_labels post).
Proof.
  repeat split.
  - unfold clean_labels. apply length_map.
  - intros Ha. rewrite (clean_labels_nth _ _ _ H).
    apply contains_expected in Ha. rewrite Ha. reflexivity.
  - intros Hn. rewrite (clean_labels_nth _ _ _ H).
    destruct (contains expected_labels tag) eqn:E; [|reflexivity].
    exfalso. apply Hn, contains_expected, E.
  - intros i H. rewrite (clean_labels_nth _ _ _ H). reflexivity.
  - intros pre post. unfold clean_labels. rewrite map_app. reflexivity.
Qed.

Lemma clean_labels_spec_witness :
  nth_error (clean_labels [str "B-SNP"; str "B-Disease"; str "O"]) 0
  = Some (str "B-SNP") /\
  nth_error (clean_labels [str "B-SNP"; str "B-Disease"; str "O"]) 1
  = Some (str "O").
Proof.
  destruct (clean_labels_spec [str "B-SNP"; str "B-Disease"; str "O"])
    as [_ [H [HD _]]].
  split.
  - apply (H 0 (str "B-SNP") eq_refl).
    right; right; right; left; reflexivity.
  - apply (HD 1 eq_refl).
Defined.

(** C6: cleaning a cleaned list of tags changes nothing, and every tag of
    a cleaned list is one of the six allowed tags. *)
Theorem clean_labels_idempotent (label_list : list pystr) :
  clean_labels (clean_labels label_list) = clean_labels label_list /\
  Forall allowed (clean_labels label_list) /\
  Forall (fun tag => In tag expected_labels) (clean_labels label_list).
Proof.
  pose proof (clean_labels_allowed label_list) as H.
  repeat split.
  - apply clean_labels_fixed, H.
  - exact H.
  - eapply Forall_impl; [|exact H]. intros tag Ha.
    apply contains_In, contains_expected, Ha.
Qed.

(** ** Vocabulary lookups *)

Lemma index_ok_nth (l : list pystr) (x : pystr) (k : nat) :
  index l x = ok k -> nth_error l k = Some x.
Proof.
  revert k; induction l as [|y l IH]; intros k; simpl; [discriminate|].
  destruct (pystr_eqb y x) eqn:E.
  - intros H; inversion H. apply pystr_eqb_eq in E. subst. reflexivity.
  - destruct (index l x) as [e|k'] eqn:Ei; simpl; [discriminate|].
    intros H; inversion H. simpl. apply IH. reflexivity.
Qed.

Lemma index_In (l : list pystr) (x : pystr) :
  In x l -> exists k, index l x = ok k.
Proof.
  induction l as [|y l IH]; simpl; [tauto|]. intros H.
  destruct (pystr_eqb y x) eqn:E; [exists 0; reflexivity|].
  destruct H as [H|H]; [subst; rewrite pystr_eqb_refl in E; discriminate|].
  destruct (IH H) as [k Hk]. rewrite Hk. exists (S k). reflexivity.
Qed.

Lemma index_not_In (l : list pystr) (x : pystr) :
  ~ In x l -> index l x = raise ValueError.
Proof.
  induction l as [|y l IH]; simpl; [reflexivity|]. intros H.
  destruct (pystr_eqb y x) eqn:E.
  - apply pystr_eqb_eq in E. tauto.
  - rewrite IH by tauto. reflexivity.
Qed.

Lemma index_ok_In (l : list pystr) (x : pystr) (k : nat) :
  index l x = ok k -> In x l.
Proof. intros H. eapply nth_error_In, index_ok_nth, H. Qed.

Lemma index_NoDup (l : list pystr) (x : pystr) (k : nat) :
  NoDup l -> nth_error l k = Some x -> index l x = ok k.
Proof.
  intros Hnd. revert k. induction Hnd as [|y l Hy Hnd IH]; intros k.
  - destruct k; discriminate.
  - destruct k as [|k]; simpl.
    + intros H; inversion H. rewrite pystr_eqb_refl. reflexivity.
    + intros H. destruct (pystr_eqb y x) eqn:E.
      * apply pystr_eqb_eq in E. subst. apply nth_error_In in H. tauto.
      * rewrite (IH k H). reflexivity.
Qed.

(** One admissible iteration order of a set. *)
Lemma first_seen_In (l : list pystr) (t : pystr) :
  In t (first_seen l) <-> In t l.
Proof.
  induction l as [|x l IH]; simpl; [tauto|].
  rewrite filter_In, IH, negb_true_iff, pystr_eqb_neq.
  destruct (pystr_eqb x t) eqn:E.
  - apply pystr_eqb_eq in E. tauto.
  - apply pystr_eqb_neq in E. tauto.
Qed.

Lemma first_seen_NoDup (l : list pystr) : NoDup (first_seen l).
Proof.
  induction l as [|x l IH]; simpl; constructor.
  - rewrite filter_In, negb_true_iff, pystr_eqb_neq. tauto.
  - apply NoDup_filter, IH.
Qed.

Lemma first_seen_list_of_set (elems : list pystr) :
  list_of_set elems (first_seen elems).
Proof.
  split; [apply first_seen_NoDup | intros t; apply first_seen_In].
Qed.

(** ** Subword alignment: what the loop emits at each position *)

Arguments word_idx_eqb : simpl never.

Lemma align_cons (vocab label : list pystr) (prev word_idx : option nat)
    (rest : list (option nat)) (label_ids : list Z) :
  align_label_ids vocab label prev (word_idx :: rest) = ok label_ids ->
  exists x xs,
    label_ids = x :: xs /\
    align_label_ids vocab label word_idx rest = ok xs /\
    match word_idx with
    | None => x = IGNORE
    | Some w =>
        if word_idx_eqb (Some w) prev then x = IGNORE
        else exists tag k, nth_error label w = Some tag /\
                           index vocab tag = ok k /\ x = Z.of_nat k
    end.
Proof.
  simpl. destruct word_idx as [w|].
  - destruct (word_idx_eqb (Some w) prev) eqn:E; simpl.
    + destruct (align_label_ids vocab label (Some w) rest) as [e|xs];
        simpl; [discriminate|].
      intros H; inversion H. exists IGNORE, xs. auto.
    + unfold getitem. destruct (nth_error label w) as [tag|] eqn:Et;
        simpl; [|discriminate].
      destruct (index vocab tag) as [e|k] eqn:Ek; simpl; [discriminate|].
      destruct (align_label_ids vocab label (Some w) rest) as [e|xs];
        simpl; [discriminate|].
      intros H; inversion H. exists (Z.of_nat k), xs.
      split; [reflexivity|]. split; [reflexivity|].
      exists tag, k. auto.
  - simpl. destruct (align_label_ids vocab label None rest) as [e|xs];
      simpl; [discriminate|].
    intros H; inversion H. exists IGNORE, xs. auto.
Qed.

(** The word index seen just before position [i]. *)
Lemma align_positions (vocab label : list pystr) (word_ids : list (option nat)) :
  forall (prev : option nat) (label_ids : list Z),
  align_label_ids vocab label prev word_ids = ok label_ids ->
  List.length label_ids = List.length word_ids /\
  forall i word_idx, nth_error word_ids i = Some word_idx ->
    match word_idx with
    | None => nth_error label_ids i = Some IGNORE
    | Some w =>
        if word_idx_eqb (Some w)
             match i with
             | 0 => prev
             | S i' => match nth_error word_ids i' with
                       | Some p => p
                       | None => None
                       end
             end
        then nth_error label_ids i = Some IGNORE
        else exists tag k, nth_error label w = Some tag /\
                           index vocab tag = ok k /\
                           nth_error label_ids i = Some (Z.of_nat k)
    end.
Proof.
  induction word_ids as [|x rest IH]; intros prev label_ids H.
  - simpl in H. inversion H. split; [reflexivity|].
    intros [|i] word_idx Hi; discriminate.
  - apply align_cons in H as [y [ys [-> [Hrest Hy]]]].
    destruct (IH _ _ Hrest) as [Hlen Hpos]. split; [simpl; congruence|].
    intros [|i] word_idx Hi.
    + simpl in Hi. inversion Hi; subst x. destruct word_idx as [w|].
      * destruct (word_idx_eqb (Some w) prev); simpl; [congruence|].
        destruct Hy as [tag [k [Ht [Hk ->]]]]. exists tag, k. auto.
      * simpl. congruence.
    + simpl in Hi. specialize (Hpos i word_idx Hi).
      destruct word_idx as [w|]; [|exact Hpos].
      replace (match nth_error (x :: rest) i with
               | Some p => p | None => None end)
        with (match i with
              | 0 => x
              | S i' => match nth_error rest i' with
                        | Some p => p | None => None end
              end) by (destruct i; reflexivity).
      exact Hpos.
Qed.

Lemma align_succeeds (vocab label : list pystr) (word_ids : list (option nat)) :
  (forall i w, word_at word_ids i w ->
     exists tag, nth_error label w = Some tag /\ In tag vocab) ->
  forall prev, exists label_ids,
    align_label_ids vocab label prev word_ids = ok label_ids.
Proof.
  induction word_ids as [|x rest IH]; intros H prev.
  - exists []. reflexivity.
  - assert (forall i w, word_at rest i w ->
              exists tag, nth_error label w = Some tag /\ In tag vocab) as Hr
      by (intros i w Hw; apply (H (S i) w); exact Hw).
    destruct (IH Hr x) as [xs Hxs]. simpl. rewrite Hxs.
    destruct x as [w|]; [|eexists; reflexivity].
    destruct (word_idx_eqb (Some w) prev); simpl; [eexists; reflexivity|].
    destruct (H 0 w eq_refl) as [tag [Ht Hin]].
    unfold getitem. rewrite Ht. simpl.
    destruct (index_In vocab tag Hin) as [k Hk]. rewrite Hk. simpl.
    eexists; reflexivity.
Qed.

Lemma word_idx_eqb_eq (a b : option nat) : word_idx_eqb a b = true <-> a = b.
Proof.
  unfold word_idx_eqb. destruct a as [x|], b as [y|];
    try (split; [discriminate | discriminate]); try tauto.
  rewrite Nat.eqb_eq. split; [congruence | intros H; inversion H; auto].
Qed.

Lemma sentinel_not_index (k : nat) : Z.of_nat k <> IGNORE.
Proof. unfold IGNORE. lia. Qed.

(** At a position carrying word [w] the loop compares with the position
    before: the test fails exactly at the start of a run of [w]. *)
Lemma starts_word_test (word_ids : list (option nat)) (i w : nat) :
  word_at word_ids i w ->
  (word_idx_eqb (Some w)
     match i with
     | 0 => None
     | S i' => match nth_error word_ids i' with
               | Some p => p
               | None => None
               end
     end = false
   <-> starts_word word_ids i w).
Proof.
  intros Hw. unfold starts_word, word_at. destruct i as [|i'].
  - split; [intros _; split; [exact Hw | exact I] | reflexivity].
  - destruct (nth_error word_ids i') as [[x|]|] eqn:E.
    + destruct (word_idx_eqb (Some w) (Some x)) eqn:T.
      * apply word_idx_eqb_eq in T. inversion T; subst x.
        split; [discriminate | intros [_ Hn]; exfalso; apply Hn; reflexivity].
      * split; [|reflexivity]. intros _. split; [exact Hw|].
        intros H; inversion H; subst x.
        assert (word_idx_eqb (Some w) (Some w) = true) as T'
          by (apply word_idx_eqb_eq; reflexivity).
        congruence.
    + split; [|reflexivity]. intros _. split; [exact Hw | discriminate].
    + split; [|reflexivity]. intros _. split; [exact Hw | discriminate].
Qed.

Lemma word_at_dec (word_ids : list (option nat)) (i w : nat) :
  word_at word_ids i w \/ ~ word_at word_ids i w.
Proof.
  unfold word_at. destruct (nth_error word_ids i) as [[x|]|].
  - destruct (Nat.eq_dec x w) as [->|Hne]; [left; reflexivity|].
    right; intros H; inversion H; contradiction.
  - right; discriminate.
  - right; discriminate.
Qed.

Lemma first_position_below (word_ids : list (option nat)) (w i : nat) :
  (forall i', i' < i -> ~ word_at word_ids i' w) \/
  (exists i0, i0 < i /\ first_position word_ids i0 w).
Proof.
  induction i as [|i IH].
  - left. intros i' H. lia.
  - destruct IH as [Hnone | [i0 [Hlt Hf]]].
    + destruct (word_at_dec word_ids i w) as [Hw|Hn].
      * right. exists i. split; [lia|]. split; assumption.
      * left. intros i' Hi'. destruct (Nat.eq_dec i' i) as [->|Hne];
          [exact Hn | apply Hnone; lia].
    + right. exists i0. split; [lia | exact Hf].
Qed.

Lemma first_position_exists (word_ids : list (option nat)) (w i : nat) :
  word_at word_ids i w -> exists i0, first_position word_ids i0 w.
Proof.
  intros Hw. destruct (first_position_below word_ids w i) as [Hn|[i0 [_ H]]].
  - exists i. split; assumption.
  - exists i0. exact H.
Qed.

Lemma first_position_starts (word_ids : list (option nat)) (w i0 : nat) :
  first_position word_ids i0 w -> starts_word word_ids i0 w.
Proof.
  intros [Hw Hfirst]. split; [exact Hw|].
  destruct i0 as [|i']; [exact I | apply Hfirst; lia].
Qed.

Lemma contiguous_later_not_start (word_ids : list (option nat)) (w i0 i : nat) :
  contiguous word_ids -> first_position word_ids i0 w ->
  word_at word_ids i w -> i <> i0 -> ~ starts_word word_ids i w.
Proof.
  intros Hc [Hw0 Hfirst] Hw Hne [_ Hs].
  assert (i0 < i) as Hlt.
  { destruct (Nat.lt_trichotomy i i0) as [H|[H|H]];
      [exfalso; exact (Hfirst i H Hw) | contradiction | exact H]. }
  destruct i as [|i']; [lia|].
  apply Hs. apply (Hc i0 i' (S i') w); [lia | lia | exact Hw0 | exact Hw].
Qed.

(** What the loop leaves at a position carrying a word, whatever the
    mapping. *)
Lemma align_word_position (vocab label : list pystr)
    (word_ids : list (option nat)) (label_ids : list Z) (i w : nat) :
  align_label_ids vocab label None word_ids = ok label_ids ->
  word_at word_ids i w ->
  (starts_word word_ids i w ->
   exists tag k, nth_error label w = Some tag /\ index vocab tag = ok k /\
                 nth_error label_ids i = Some (Z.of_nat k)) /\
  (~ starts_word word_ids i w -> nth_error label_ids i = Some IGNORE).
Proof.
  intros Ha Hw. destruct (align_positions _ _ _ _ _ Ha) as [_ Hpos].
  specialize (Hpos i (Some w) Hw). simpl in Hpos.
  pose proof (starts_word_test word_ids i w Hw) as Ht.
  destruct (word_idx_eqb (Some w) _) eqn:E in Hpos.
  - split; [|intros _; exact Hpos].
    intros Hs. apply Ht in Hs. congruence.
  - split; [intros _; exact Hpos|].
    intros Hn. exfalso. apply Hn, Ht, E.
Qed.

(** For a mapping in which the positions of each word index are
    consecutive: the first position of each word carries its label, every
    other position carries -100. *)
Lemma contiguous_first_subword (vocab label : list pystr)
    (word_ids : list (option nat)) :
  contiguous word_ids ->
  ((forall i w, word_at word_ids i w ->
      exists tag, nth_error label w = Some tag /\ In tag vocab) ->
   exists label_ids, align_label_ids vocab label None word_ids = ok label_ids) /\
  (forall label_ids,
     align_label_ids vocab label None word_ids = ok label_ids ->
     List.length label_ids = List.length word_ids /\
     (forall i, nth_error word_ids i = Some None ->
        nth_error label_ids i = Some IGNORE) /\
     (forall w i, word_at word_ids i w ->
        exists i0 tag k,
          first_position word_ids i0 w /\
          nth_error label w = Some tag /\
          index vocab tag = ok k /\
          nth_error vocab k = Some tag /\
          nth_error label_ids i0 = Some (Z.of_nat k) /\
          Z.of_nat k <> IGNORE /\
          forall i', word_at word_ids i' w -> i' <> i0 ->
            nth_error label_ids i' = Some IGNORE)) /\
  (forall k, index vocab (str "B-SNP") = ok k ->
     align_label_ids vocab [str "B-SNP"] None [Some 0; Some 0; Some 0]
     = ok [Z.of_nat k; IGNORE; IGNORE]).
Proof.
  intros Hc. split; [|split].
  - intros H. apply align_succeeds. exact H.
  - intros label_ids Ha.
    destruct (align_positions _ _ _ _ _ Ha) as [Hlen Hpos].
    split; [exact Hlen|]. split.
    + intros i Hi. exact (Hpos i None Hi).
    + intros w i Hw.
      destruct (first_position_exists word_ids w i Hw) as [i0 Hf].
      destruct (align_word_position _ _ _ _ i0 w Ha (proj1 Hf)) as [Hs _].
      destruct (Hs (first_position_starts _ _ _ Hf)) as [tag [k [Ht [Hk Hl]]]].
      exists i0, tag, k. repeat split; try assumption.
      * exact (proj1 Hf).
      * exact (proj2 Hf).
      * apply index_ok_nth, Hk.
      * apply sentinel_not_index.
      * intros i' Hw' Hne.
        destruct (align_word_position _ _ _ _ i' w Ha Hw') as [_ Hi].
        apply Hi. eapply contiguous_later_not_start; eassumption.
  - intros k Hk. simpl. unfold getitem. simpl. rewrite Hk. reflexivity.
Qed.

(** ** The layout of a tokenizer is contiguous *)

Lemma word_at_app (l1 l2 : list (option nat)) (i w : nat) :
  word_at (l1 ++ l2) i w <->
  (i < List.length l1 /\ word_at l1 i w) \/
  (List.length l1 <= i /\ word_at l2 (i - List.length l1) w).
Proof.
  unfold word_at. destruct (Nat.lt_ge_cases i (List.length l1)) as [H|H].
  - rewrite nth_error_app1 by assumption. split; [auto|].
    intros [[_ E]|[Hle _]]; [exact E | lia].
  - rewrite nth_error_app2 by assumption. split; [auto|].
    intros [[Hlt _]|[_ E]]; [lia | exact E].
Qed.

Lemma word_at_repeat (x : option nat) (n i w : nat) :
  word_at (repeat x n) i w <-> x = Some w /\ i < n.
Proof.
  unfold word_at. split.
  - intros H. split.
    + apply nth_error_In in H. apply repeat_spec in H. congruence.
    + assert (nth_error (repeat x n) i <> None) as Hn by congruence.
      apply nth_error_Some in Hn. rewrite repeat_length in Hn. exact Hn.
  - intros [-> Hlt]. apply nth_error_repeat. exact Hlt.
Qed.

Lemma word_pieces_ge (pieces : list nat) :
  forall s i w, word_at (word_pieces s pieces) i w -> s <= w.
Proof.
  induction pieces as [|n ps IH]; intros s i w H; simpl in H.
  - destruct i; discriminate.
  - apply word_at_app in H as [[_ H]|[_ H]].
    + apply word_at_repeat in H as [E _]. inversion E. lia.
    + apply IH in H. lia.
Qed.

Lemma word_pieces_contiguous (pieces : list nat) :
  forall s, contiguous (word_pieces s pieces).
Proof.
  induction pieces as [|n ps IH]; intros s i k j w Hik Hkj Hi Hj; simpl in *.
  - destruct i; discriminate.
  - apply word_at_app in Hi, Hj. apply word_at_app.
    rewrite repeat_length in *.
    destruct Hi as [[Hin Hi]|[Hin Hi]].
    + apply word_at_repeat in Hi as [E _]. inversion E; subst w.
      destruct Hj as [[Hjn _]|[_ Hj]].
      * left. split; [lia|]. apply word_at_repeat. split; [reflexivity | lia].
      * apply word_pieces_ge in Hj. lia.
    + destruct Hj as [[Hjn _]|[Hjn Hj]]; [lia|].
      right. split; [lia|].
      apply (IH (S s) (i - n) (k - n) (j - n) w); [lia | lia | exact Hi | exact Hj].
Qed.

Lemma tokenizer_word_ids_contiguous (lead : nat) (pieces : list nat)
    (trail : nat) :
  contiguous (tokenizer_word_ids lead pieces trail).
Proof.
  unfold tokenizer_word_ids. intros i k j w Hik Hkj Hi Hj.
  apply word_at_app in Hi, Hj. apply word_at_app.
  rewrite repeat_length in *.
  destruct Hi as [[_ Hi]|[Hin Hi]];
    [apply word_at_repeat in Hi as [E _]; discriminate|].
  destruct Hj as [[_ Hj]|[Hjn Hj]];
    [apply word_at_repeat in Hj as [E _]; discriminate|].
  right. split; [lia|].
  apply word_at_app in Hi, Hj. apply word_at_app.
  destruct Hi as [[Hil Hi]|[_ Hi]];
    [|apply word_at_repeat in Hi as [E _]; discriminate].
  destruct Hj as [[Hjl Hj]|[_ Hj]];
    [|apply word_at_repeat in Hj as [E _]; discriminate].
  left. split; [lia|].
  apply (word_pieces_contiguous pieces 0 (i - lead) (k - lead) (j - lead) w);
    [lia | lia | exact Hi | exact Hj].
Qed.

(** C2: for every sentence aligned by [tokenize_and_align_labels], with
    [word_ids] the mapping of the tokenizer - special tokens, then the
    pieces of each word in turn, then special and padding tokens -
    whenever the alignment returns, every position without a word index
    holds -100, and for every word index [w] occurring in the mapping
    exactly one position carrying [w], the first in scan order, holds a
    value other than -100, namely the vocabulary index of the tag of word
    [w], while every other position carrying [w] holds -100.  The
    alignment returns whenever every word index occurring in the mapping
    has a tag and that tag is in the vocabulary.  A word with tag B-SNP
    split into three pieces gets [index; -100; -100]. *)
Theorem alignment_labels_first_subword (vocab label : list pystr)
    (lead : nat) (pieces : list nat) (trail : nat) :
  ((forall i w, word_at (tokenizer_word_ids lead pieces trail) i w ->
      exists tag, nth_error label w = Some tag /\ In tag vocab) ->
   exists label_ids,
     align_label_ids vocab label None (tokenizer_word_ids lead pieces trail)
     = ok label_ids) /\
  (forall label_ids,
     align_label_ids vocab label None (tokenizer_word_ids lead pieces trail)
     = ok label_ids ->
     List.length label_ids
     = List.length (tokenizer_word_ids lead pieces trail) /\
     (forall i, nth_error (tokenizer_word_ids lead pieces trail) i = Some None ->
        nth_error label_ids i = Some IGNORE) /\
     (forall w i, word_at (tokenizer_word_ids lead pieces trail) i w ->
        exists i0 tag k,
          first_position (tokenizer_word_ids lead pieces trail) i0 w /\
          nth_error label w = Some tag /\
          index vocab tag = ok k /\
          nth_error vocab k = Some tag /\
          nth_error label_ids i0 = Some (Z.of_nat k) /\
          Z.of_nat k <> IGNORE /\
          forall i', word_at (tokenizer_word_ids lead pieces trail) i' w ->
            i' <> i0 -> nth_error label_ids i' = Some IGNORE)) /\
  (forall k, index vocab (str "B-SNP") = ok k ->
     align_label_ids vocab [str "B-SNP"] None (tokenizer_word_ids 0 [3] 0)
     = ok [Z.of_nat k; IGNORE; IGNORE]).
Proof.
  pose proof (tokenizer_word_ids_contiguous lead pieces trail) as Hc.
  destruct (contiguous_first_subword vocab label
              (tokenizer_word_ids lead pieces trail) Hc)
    as [Hreturns [Hlabels Hscenario]].
  split; [exact Hreturns|]. split; [exact Hlabels|].
  intros k Hk. exact (Hscenario k Hk).
Qed.

Lemma alignment_labels_first_subword_witness :
  exists i0 tag k,
    first_position (tokenizer_word_ids 1 [3] 1) i0 0 /\
    nth_error [str "B-SNP"] 0 = Some tag /\
    index [str "O"; str "B-SNP"] tag = ok k /\
    nth_error [str "O"; str "B-SNP"] k = Some tag /\
    nth_error [IGNORE; 1%Z; IGNORE; IGNORE; IGNORE] i0 = Some (Z.of_nat k) /\
    Z.of_nat k <> IGNORE /\
    forall i', word_at (tokenizer_word_ids 1 [3] 1) i' 0 -> i' <> i0 ->
      nth_error [IGNORE; 1%Z; IGNORE; IGNORE; IGNORE] i' = Some IGNORE.
Proof.
  destruct (alignment_labels_first_subword [str "O"; str "B-SNP"]
              [str "B-SNP"] 1 [3] 1) as [_ [H _]].
  destruct (H [IGNORE; 1%Z; IGNORE; IGNORE; IGNORE] eq_refl) as [_ [_ Hw]].
  exact (Hw 0 2 eq_refl).
Defined.

(** ** Vocabulary coverage *)

Lemma vocabulary_In (set_order : list pystr -> list pystr)
    (cleaned : list (list pystr)) (tag : pystr) :
  (forall elems, list_of_set elems (set_order elems)) ->
  (In tag (cleaned_unique_labels set_order cleaned) <->
   exists row, In row cleaned /\ In tag row).
Proof.
  intros Hset. unfold cleaned_unique_labels.
  rewrite (proj2 (Hset (concat cleaned)) tag), in_concat. reflexivity.
Qed.

Lemma index_in_vocabulary (vocab : list pystr) (tag : pystr) :
  In tag vocab -> exists k, index vocab tag = ok k /\ nth_error vocab k = Some tag.
Proof.
  intros H. destruct (index_In vocab tag H) as [k Hk].
  exists k. split; [exact Hk | apply index_ok_nth, Hk].
Qed.

(** C1 (amended): every tag of the cleaned training corpus, and so of any
    validation split whose rows are rows of that corpus, is in
    [cleaned_unique_labels], and the alignment of such a sentence never
    fails on a lookup.  A tag of the cleaned test corpus is one of the six
    allowed tags; its lookup succeeds when the tag also occurs in the
    cleaned training corpus and raises ValueError when it does not. *)
Theorem vocabulary_covers_training_tags
    (set_order : list pystr -> list pystr)
    (train_labels test_labels validation : list (list pystr)) :
  (forall elems, list_of_set elems (set_order elems)) ->
  (forall row, In row validation -> In row (clean_corpus train_labels)) ->
  (forall row tag,
     In row (clean_corpus train_labels) \/ In row validation -> In tag row ->
     exists k,
       index (cleaned_unique_labels set_order (clean_corpus train_labels)) tag
       = ok k /\
       nth_error (cleaned_unique_labels set_order (clean_corpus train_labels)) k
       = Some tag) /\
  (forall row word_ids,
     In row (clean_corpus train_labels) \/ In row validation ->
     (forall i w, word_at word_ids i w -> w < List.length row) ->
     exists label_ids,
       align_label_ids
         (cleaned_unique_labels set_order (clean_corpus train_labels))
         row None word_ids = ok label_ids) /\
  (forall row tag,
     In row (clean_corpus test_labels) -> In tag row ->
     allowed tag /\
     (In tag (concat (clean_corpus train_labels)) ->
      exists k,
        index (cleaned_unique_labels set_order (clean_corpus train_labels)) tag
        = ok k) /\
     (~ In tag (concat (clean_corpus train_labels)) ->
      index (cleaned_unique_labels set_order (clean_corpus train_labels)) tag
      = raise ValueError)).
Proof.
  intros Hset Hval.
  assert (forall row tag,
            In row (clean_corpus train_labels) \/ In row validation ->
            In tag row ->
            In tag (cleaned_unique_labels set_order (clean_corpus train_labels)))
    as Hin.
  { intros row tag Hrow Htag. apply vocabulary_In; [exact Hset|].
    exists row. split; [|exact Htag].
    destruct Hrow as [H|H]; [exact H | apply Hval, H]. }
  split; [|split].
  - intros row tag Hrow Htag. apply index_in_vocabulary. eapply Hin; eassumption.
  - intros row word_ids Hrow Hrange. apply align_succeeds.
    intros i w Hw. specialize (Hrange i w Hw).
    destruct (nth_error row w) as [tag|] eqn:E.
    + exists tag. split; [reflexivity|].
      apply (Hin row tag Hrow). eapply nth_error_In, E.
    + apply nth_error_None in E. lia.
  - intros row tag Hrow Htag. split; [|split].
    + unfold clean_corpus in Hrow. apply in_map_iff in Hrow as [raw [<- _]].
      pose proof (clean_labels_allowed raw) as Ha.
      rewrite Forall_forall in Ha. apply Ha, Htag.
    + intros H. apply index_In. unfold cleaned_unique_labels.
      apply (proj2 (Hset _) tag), H.
    + intros H. apply index_not_In. unfold cleaned_unique_labels.
      intros Hv. apply H, (proj2 (Hset _) tag), Hv.
Qed.

Lemma vocabulary_covers_training_tags_witness :
  (exists k,
     index (cleaned_unique_labels first_seen
              (clean_corpus [[str "O"; str "B-Gene"]; [str "B-Disease"]]))
           (str "B-Gene") = ok k /\
     nth_error (cleaned_unique_labels first_seen
                  (clean_corpus [[str "O"; str "B-Gene"]; [str "B-Disease"]])) k
     = Some (str "B-Gene")) /\
  index (cleaned_unique_labels first_seen
           (clean_corpus [[str "O"; str "B-Gene"]; [str "B-Disease"]]))
        (str "B-RS") = raise ValueError.
Proof.
  destruct (vocabulary_covers_training_tags first_seen
              [[str "O"; str "B-Gene"]; [str "B-Disease"]]
              [[str "B-Gene"; str "B-RS"]]
              [[str "O"; str "B-Gene"]]
              first_seen_list_of_set) as [H1 [_ H3]].
  - intros row [<-|[]]. left. reflexivity.
  - split.
    + apply (H1 [str "O"; str "B-Gene"]); [right; left; reflexivity|].
      right; left; reflexivity.
    + apply (H3 [str "B-Gene"; str "B-RS"] (str "B-RS"));
        [left; reflexivity | right; left; reflexivity |].
      vm_compute. intros [H|[H|[H|[]]]]; discriminate H.
Defined.

(** C1 as stated fails: with the training text "The,O" and the test text
    "BRCA1,B-Gene" the cleaned test corpus holds the tag B-Gene, the
    vocabulary is [O] in every iteration order, and the alignment of the
    test sentence raises ValueError. *)
Lemma vocabulary_misses_test_tag :
  clean_corpus (snd (load_and_parse_iob (str "BRCA1,B-Gene")))
  = [[str "B-Gene"]] /\
  (forall vocab,
     list_of_set
       (concat (clean_corpus (snd (load_and_parse_iob (str "The,O"))))) vocab ->
     ~ In (str "B-Gene") vocab) /\
  cleaned_unique_labels first_seen
    (clean_corpus (snd (load_and_parse_iob (str "The,O")))) = [str "O"] /\
  tokenize_and_align_labels [str "O"] (fun _ => [None; Some 0; None])
    (clean_corpus (snd (load_and_parse_iob (str "BRCA1,B-Gene"))))
  = raise ValueError.
Proof.
  split; [vm_compute; reflexivity|]. split; [|split].
  - intros vocab [_ H] Hin. apply H in Hin. vm_compute in Hin.
    destruct Hin as [Hin|[]]. discriminate Hin.
  - vm_compute. reflexivity.
  - vm_compute. reflexivity.
Qed.

(** ** Decoding of predictions *)

Lemma bind_ok {A B : Type} (m : result A) (k : A -> result B) (b : B) :
  bind m k = ok b -> exists a, m = ok a /\ k a = ok b.
Proof.
  destruct m as [e|a]; simpl; [discriminate|]. intros H. exists a. auto.
Qed.

Lemma getitem2_ok {A : Type} (a : ndarray2 A) (i j : nat) (x : A) :
  getitem2 a i j = ok x -> i < rows a /\ j < cols a /\ x = item2 a i j.
Proof.
  unfold getitem2.
  destruct (Nat.ltb i (rows a)) eqn:Ei, (Nat.ltb j (cols a)) eqn:Ej;
    simpl; try discriminate.
  apply Nat.ltb_lt in Ei, Ej. intros H; inversion H. auto.
Qed.

Lemma getitem2_in_range {A : Type} (a : ndarray2 A) (i j : nat) :
  i < rows a -> j < cols a -> getitem2 a i j = ok (item2 a i j).
Proof.
  intros Hi Hj. unfold getitem2.
  apply Nat.ltb_lt in Hi, Hj. rewrite Hi, Hj. reflexivity.
Qed.

Lemma getitem_int_in_range {A : Type} (l : list A) (k : Z) :
  (0 <= k < Z.of_nat (List.length l))%Z -> exists a, getitem_int l k = ok a.
Proof.
  intros H. unfold getitem_int, getitem.
  destruct (Z.leb_spec 0 k) as [_|Hneg]; [|lia].
  destruct (nth_error l (Z.to_nat k)) as [a|] eqn:E; [exists a; reflexivity|].
  apply nth_error_None in E. lia.
Qed.

Lemma decode_positions_equal (vocab : list pystr) (preds : ndarray2 nat)
    (label_ids : ndarray2 Z) (i : nat) (js : list nat) :
  (forall j, In j js -> item2 label_ids i j <> IGNORE ->
     Z.of_nat (item2 preds i j) = item2 label_ids i j) ->
  forall p o, decode_positions vocab preds label_ids i js = ok (p, o) ->
  p = o /\
  Forall2 (fun g s => getitem_int vocab g = ok s)
          (filter (fun g => negb (Z.eqb g IGNORE))
                  (map (item2 label_ids i) js)) o.
Proof.
  induction js as [|j js IH]; intros H p o Hd.
  - simpl in Hd. inversion Hd. split; [reflexivity | constructor].
  - simpl in Hd. apply bind_ok in Hd as [gold [Hg Hd]].
    apply getitem2_ok in Hg as [_ [_ ->]]. simpl.
    assert (forall j', In j' js -> item2 label_ids i j' <> IGNORE ->
              Z.of_nat (item2 preds i j') = item2 label_ids i j') as H'
      by (intros j' Hin; apply H; right; exact Hin).
    destruct (Z.eqb (item2 label_ids i j) IGNORE) eqn:E; simpl in *.
    + apply IH; assumption.
    + apply Z.eqb_neq in E.
      apply bind_ok in Hd as [out_label [Ho Hd]].
      apply bind_ok in Hd as [pj [Hp Hd]].
      apply getitem2_ok in Hp as [_ [_ ->]].
      apply bind_ok in Hd as [pred [Hs Hd]].
      apply bind_ok in Hd as [[p' o'] [Hrest Hd]].
      inversion Hd; subst p o. simpl.
      destruct (IH H' p' o' Hrest) as [-> Hf].
      rewrite (H j (or_introl eq_refl) E) in Hs.
      assert (pred = out_label) as ->
        by (rewrite Ho in Hs; inversion Hs; reflexivity).
      split; [reflexivity | constructor; assumption].
Qed.

Lemma decode_sequences_equal (vocab : list pystr) (preds : ndarray2 nat)
    (label_ids : ndarray2 Z) (seq_len : nat) (batch : list nat) :
  (forall i j, In i batch -> j < seq_len -> item2 label_ids i j <> IGNORE ->
     Z.of_nat (item2 preds i j) = item2 label_ids i j) ->
  forall P O,
    decode_sequences vocab preds label_ids seq_len batch = ok (P, O) ->
    P = O /\
    Forall2 (fun i row =>
               Forall2 (fun g s => getitem_int vocab g = ok s)
                       (gold_ids label_ids seq_len i) row)
            batch O.
Proof.
  induction batch as [|i batch IH]; intros H P O Hd.
  - simpl in Hd. inversion Hd. split; [reflexivity | constructor].
  - simpl in Hd. apply bind_ok in Hd as [[p o] [Hrow Hd]].
    apply bind_ok in Hd as [[P' O'] [Hrest Hd]].
    inversion Hd; subst P O. simpl.
    apply decode_positions_equal in Hrow as [-> Hf].
    + destruct (IH (fun i' j Hi => H i' j (or_intror Hi)) P' O' Hrest)
        as [-> HF].
      split; [reflexivity | constructor; assumption].
    + intros j Hj. apply H; [left; reflexivity | apply in_seq in Hj; lia].
Qed.

Lemma decode_positions_returns (vocab : list pystr) (preds : ndarray2 nat)
    (label_ids : ndarray2 Z) (i : nat) (js : list nat) :
  i < rows preds -> i < rows label_ids ->
  (forall j, In j js ->
     j < cols preds /\ j < cols label_ids /\
     (item2 label_ids i j <> IGNORE ->
      Z.of_nat (item2 preds i j) = item2 label_ids i j /\
      item2 preds i j < List.length vocab)) ->
  exists r, decode_positions vocab preds label_ids i js = ok r.
Proof.
  intros Hip Hil. induction js as [|j js IH]; intros H.
  - eexists; reflexivity.
  - destruct (IH (fun j' Hin => H j' (or_intror Hin))) as [r Hr].
    destruct (H j (or_introl eq_refl)) as [Hjp [Hjl Hg]].
    simpl. rewrite (getitem2_in_range label_ids i j Hil Hjl). simpl.
    destruct (Z.eqb (item2 label_ids i j) IGNORE) eqn:E; simpl;
      [exists r; exact Hr|].
    apply Z.eqb_neq in E. destruct (Hg E) as [Heq Hlt].
    destruct (getitem_int_in_range vocab (item2 label_ids i j)) as [s Hs];
      [lia|].
    rewrite Hs. simpl. rewrite (getitem2_in_range preds i j Hip Hjp). simpl.
    rewrite Heq, Hs. simpl. rewrite Hr. simpl. eexists; reflexivity.
Qed.

Lemma decode_sequences_returns (vocab : list pystr) (preds : ndarray2 nat)
    (label_ids : ndarray2 Z) (seq_len : nat) (batch : list nat) :
  seq_len <= cols preds -> seq_len <= cols label_ids ->
  (forall i, In i batch -> i < rows preds /\ i < rows label_ids) ->
  (forall i j, In i batch -> j < seq_len -> item2 label_ids i j <> IGNORE ->
     Z.of_nat (item2 preds i j) = item2 label_ids i j /\
     item2 preds i j < List.length vocab) ->
  exists r, decode_sequences vocab preds label_ids seq_len batch = ok r.
Proof.
  intros Hcp Hcl. induction batch as [|i batch IH]; intros Hrows H.
  - eexists; reflexivity.
  - destruct (IH (fun i' Hin => Hrows i' (or_intror Hin))
                 (fun i' j Hin => H i' j (or_intror Hin))) as [r Hr].
    destruct (Hrows i (or_introl eq_refl)) as [Hip Hil].
    destruct (decode_positions_returns vocab preds label_ids i (seq 0 seq_len)
                Hip Hil) as [row Hrow].
    + intros j Hj. apply in_seq in Hj. repeat split; try lia.
      * apply H; [left; reflexivity | lia | assumption].
      * apply H; [left; reflexivity | lia | assumption].
    + simpl. rewrite Hrow. simpl. rewrite Hr. simpl. eexists; reflexivity.
Qed.

Section RoundTrip.

Variable score : Type.
Variable score_le : score -> score -> bool.
Variable score_isnan : score -> bool.

Lemma argmax_last_ok (predictions : ndarray3 score) (preds : ndarray2 nat) :
  argmax_last score_le score_isnan predictions = ok preds ->
  rows preds = dim0 predictions /\
  cols preds = dim1 predictions /\
  forall i j k,
    argmax score_le score_isnan (scores_at predictions i j) = ok k ->
    item2 preds i j = k.
Proof.
  unfold argmax_last. destruct (Nat.eqb (dim2 predictions) 0); [discriminate|].
  intros H; inversion H; subst preds; simpl. repeat split.
  intros i j k Hk. rewrite Hk. reflexivity.
Qed.

Lemma argmax_last_returns (predictions : ndarray3 score) :
  0 < dim2 predictions ->
  exists preds, argmax_last score_le score_isnan predictions = ok preds.
Proof.
  intros H. unfold argmax_last.
  destruct (Nat.eqb (dim2 predictions) 0) eqn:E;
    [apply Nat.eqb_eq in E; lia | eexists; reflexivity].
Qed.

(** C3: when the best-scoring class at every position with a non-ignore
    gold id is that gold id, [align_predictions] returns two equal
    lists: one row per sequence, holding the vocabulary strings of the
    gold ids of that sequence that are not -100, in order.  It does
    return when the gold array covers the shape of the predictions, there
    is at least one class, and the non-ignore gold ids are below the size
    of the vocabulary. *)
Theorem align_predictions_round_trip (cleaned_unique_labels : list pystr)
    (predictions : ndarray3 score) (label_ids : ndarray2 Z) :
  gold_as_predictions score_le score_isnan predictions label_ids ->
  (forall preds_list out_label_list,
     align_predictions score_le score_isnan cleaned_unique_labels
       predictions label_ids = ok (preds_list, out_label_list) ->
     preds_list = out_label_list /\
     Forall2 (fun i row =>
                Forall2 (fun g s => getitem_int cleaned_unique_labels g = ok s)
                        (gold_ids label_ids (dim1 predictions) i) row)
             (seq 0 (dim0 predictions)) out_label_list) /\
  (dim0 predictions <= rows label_ids ->
   dim1 predictions <= cols label_ids ->
   0 < dim2 predictions ->
   (forall i j, i < dim0 predictions -> j < dim1 predictions ->
      item2 label_ids i j <> IGNORE ->
      (item2 label_ids i j < Z.of_nat (List.length cleaned_unique_labels))%Z) ->
   exists out,
     align_predictions score_le score_isnan cleaned_unique_labels
       predictions label_ids = ok (out, out)).
Proof.
  intros Hgold.
  assert (forall preds,
            argmax_last score_le score_isnan predictions = ok preds ->
            forall i j, In i (seq 0 (rows preds)) -> j < cols preds ->
              item2 label_ids i j <> IGNORE ->
              Z.of_nat (item2 preds i j) = item2 label_ids i j) as Hsame.
  { intros preds Hp i j Hi Hj Hg.
    destruct (argmax_last_ok _ _ Hp) as [Hr [Hc Hitem]].
    apply in_seq in Hi.
    destruct (Hgold i j) as [k [Hk Hz]]; [lia | lia | exact Hg |].
    rewrite (Hitem i j k Hk). exact Hz. }
  split.
  - intros preds_list out_label_list H. unfold align_predictions in H.
    apply bind_ok in H as [preds [Hp H]].
    destruct (argmax_last_ok _ _ Hp) as [Hr [Hc _]].
    apply decode_sequences_equal in H; [|apply Hsame; exact Hp].
    rewrite Hr, Hc in H. exact H.
  - intros Hrows Hcols Hdim Hvalid.
    destruct (argmax_last_returns predictions Hdim) as [preds Hp].
    destruct (argmax_last_ok _ _ Hp) as [Hr [Hc _]].
    destruct (decode_sequences_returns cleaned_unique_labels preds label_ids
                (cols preds) (seq 0 (rows preds))) as [[P O] Hd].
    + lia.
    + lia.
    + intros i Hi. apply in_seq in Hi. lia.
    + intros i j Hi Hj Hg.
      pose proof (Hsame preds Hp i j Hi Hj Hg) as Heq.
      split; [exact Heq|]. apply in_seq in Hi.
      specialize (Hvalid i j ltac:(lia) ltac:(lia) Hg). lia.
    + pose proof Hd as Hd'.
      apply decode_sequences_equal in Hd' as [-> _];
        [|apply Hsame; exact Hp].
      exists O. unfold align_predictions. rewrite Hp. simpl. exact Hd.
Qed.

End RoundTrip.

Lemma align_predictions_round_trip_witness :
  exists out,
    align_predictions Z.leb (fun _ => false) [str "O"; str "B-SNP"]
      (array3_of_lists 0%Z 1 3 2 [[[5; 1]; [0; 7]; [2; 2]]]%Z)
      (array2_of_lists 0%Z 1 3 [[-100; 1; 0]]%Z)
    = ok (out, out).
Proof.
  refine (proj2 (align_predictions_round_trip Z Z.leb (fun _ => false)
                   [str "O"; str "B-SNP"]
                   (array3_of_lists 0%Z 1 3 2 [[[5; 1]; [0; 7]; [2; 2]]]%Z)
                   (array2_of_lists 0%Z 1 3 [[-100; 1; 0]]%Z) _) _ _ _ _).
  - intros i j Hi Hj Hg. simpl in Hi, Hj.
    destruct i as [|i]; [|lia].
    destruct j as [|[|[|j]]]; [| | |lia].
    + exfalso. apply Hg. reflexivity.
    + exists 1. split; reflexivity.
    + exists 0. split; reflexivity.
  - simpl. lia.
  - simpl. lia.
  - simpl. lia.
  - intros i j Hi Hj Hg. simpl in Hi, Hj.
    destruct i as [|i]; [|lia].
    destruct j as [|[|[|j]]]; [| | |lia]; simpl; lia.
Defined.

Example decoding_example :
  align_predictions Z.leb (fun _ => false) [str "O"; str "B-SNP"]
    (array3_of_lists 0%Z 1 3 2 [[[5; 1]; [0; 7]; [2; 2]]]%Z)
    (array2_of_lists 0%Z 1 3 [[-100; 1; 0]]%Z)
  = ok ([[str "B-SNP"; str "O"]], [[str "B-SNP"; str "O"]]).
Proof. vm_compute. reflexivity. Qed.

(** ** One sweep trial *)


Section TrialProperties.

Variable score : Type.
Variable score_le : score -> score -> bool.
Variable score_isnan : score -> bool.

Lemma train_unfold (c : collaborators score) (vocab : list pystr) :
  wandb_init c = None ->
  train score_le score_isnan c vocab
  = (WandbInit ::
       fst (try_except_finally (try_block score_le score_isnan c vocab)
              (except_clause c) (call RunFinish (run_finish c))),
     snd (try_except_finally (try_block score_le score_isnan c vocab)
            (except_clause c) (call RunFinish (run_finish c)))).
Proof.
  intros H. unfold train. rewrite H. unfold call at 1. unfold andthen.
  destruct (try_except_finally _ _ _) as [t r]. reflexivity.
Qed.


End TrialProperties.



(** A lookup error of the decoding is an [Exception] and is reported like
    any other: here the gold id 7 is outside the one-tag vocabulary. *)
Example train_reports_decoding_error :
  train Z.leb (fun _ => false)
    (mk_collaborators None None None
       (inr (array3_of_lists 0%Z 1 1 1 [[[0]]]%Z,
             array2_of_lists 0%Z 1 1 [[7]]%Z))
       (fun _ _ => None) (fun _ => None) (fun _ _ => None) None
       sample_error_text)
    [str "O"]
  = ([WandbInit; TrainerTrain; TrainerEvaluate; TrainerPredict;
      LoggerError
        (str "Error during training or evaluation: list index out of range");
      WandbAlert (str "Training or Evaluation Error")
        (str "An error occurred during training or evaluation: list index out of range");
      RunFinish],
     inr tt).
Proof. vm_compute. reflexivity. Qed.

Example train_success :
  train Z.leb (fun _ => false) (trial_with_training None)
    [str "O"; str "B-SNP"]
  = ([WandbInit; TrainerTrain; TrainerEvaluate; TrainerPredict; Report;
      RunFinish], inr tt).
Proof. vm_compute. reflexivity. Qed.

(* ================================================================= *)
(** * Further properties *)

(** ** Stripping and splitting *)

Lemma lstrip_all_space (a s : pystr) :
  all_space a = true -> lstrip (a ++ s) = lstrip s.
Proof.
  induction a as [|c a IH]; simpl; [reflexivity|].
  intros H. apply andb_true_iff in H as [Hc Ha]. rewrite Hc. apply IH, Ha.
Qed.

Lemma lstrip_nil_iff (s : pystr) : lstrip s = [] <-> all_space s = true.
Proof.
  induction s as [|c s IH]; simpl; [tauto|].
  destruct (isspace c); simpl; [exact IH|].
  split; discriminate.
Qed.

Lemma lstrip_head (s : pystr) (c : pychar) (t : pystr) :
  lstrip s = c :: t -> isspace c = false.
Proof.
  induction s as [|x s IH]; simpl; [discriminate|].
  destruct (isspace x) eqn:E; [exact IH|].
  intros H; inversion H; subst; exact E.
Qed.

Lemma lstrip_fixed (c : pychar) (t : pystr) :
  isspace c = false -> lstrip (c :: t) = c :: t.
Proof. intros H. simpl. rewrite H. reflexivity. Qed.

Lemma lstrip_decompose (s : pystr) :
  exists a, s = a ++ lstrip s /\ all_space a = true.
Proof.
  induction s as [|c s [a [Hs Ha]]]; simpl.
  - exists []. auto.
  - destruct (isspace c) eqn:E.
    + exists (c :: a). simpl. rewrite E, Ha. split; [congruence | reflexivity].
    + exists []. auto.
Qed.

Lemma lstrip_app_keep (x y : pystr) :
  lstrip x <> [] -> lstrip (x ++ y) = lstrip x ++ y.
Proof.
  induction x as [|c x IH]; simpl; [congruence|].
  destruct (isspace c); [exact IH | reflexivity].
Qed.

Lemma all_space_rev (s : pystr) : all_space (rev s) = all_space s.
Proof.
  unfold all_space. induction s as [|c s IH]; simpl; [reflexivity|].
  rewrite forallb_app, IH. simpl. rewrite andb_true_r. apply andb_comm.
Qed.

Lemma all_space_app (a b : pystr) :
  all_space (a ++ b) = all_space a && all_space b.
Proof. apply forallb_app. Qed.

Lemma rstrip_all_space (s b : pystr) :
  all_space b = true -> rstrip (s ++ b) = rstrip s.
Proof.
  intros H. unfold rstrip. rewrite rev_app_distr, lstrip_all_space;
    [reflexivity | rewrite all_space_rev; exact H].
Qed.

Lemma rstrip_nil_iff (s : pystr) : rstrip s = [] <-> all_space s = true.
Proof.
  unfold rstrip. rewrite <- all_space_rev, <- lstrip_nil_iff.
  split; intros H.
  - apply (f_equal (@rev pychar)) in H. rewrite rev_involutive in H. exact H.
  - rewrite H. reflexivity.
Qed.

Lemma rstrip_app_keep (a s : pystr) :
  rstrip s <> [] -> rstrip (a ++ s) = a ++ rstrip s.
Proof.
  intros H. unfold rstrip in *. rewrite rev_app_distr, lstrip_app_keep.
  - rewrite rev_app_distr, rev_involutive. reflexivity.
  - intros E. apply H. rewrite E. reflexivity.
Qed.

Lemma rstrip_decompose (s : pystr) :
  exists b, s = rstrip s ++ b /\ all_space b = true.
Proof.
  destruct (lstrip_decompose (rev s)) as [a [Hs Ha]].
  exists (rev a). split.
  - unfold rstrip. rewrite <- rev_app_distr, <- Hs, rev_involutive. reflexivity.
  - rewrite all_space_rev. exact Ha.
Qed.

Lemma rstrip_cons_keep (c : pychar) (t : pystr) :
  isspace c = false -> exists t', rstrip (c :: t) = c :: t'.
Proof.
  intros Hc. destruct (rstrip t) as [|x r] eqn:E.
  - exists []. destruct (rstrip_decompose t) as [b [Ht Hb]].
    rewrite E in Ht. simpl in Ht. subst b.
    change (c :: t) with ([c] ++ t). rewrite rstrip_all_space by exact Hb.
    unfold rstrip. simpl. rewrite Hc. reflexivity.
  - exists (x :: r). change (c :: t) with ([c] ++ t).
    rewrite rstrip_app_keep by congruence. rewrite E. reflexivity.
Qed.

Lemma strip_all_space (s : pystr) : all_space s = true -> strip s = [].
Proof.
  intros H. unfold strip. apply lstrip_nil_iff in H. rewrite H. reflexivity.
Qed.

Lemma strip_nil_iff (s : pystr) : strip s = [] <-> all_space s = true.
Proof.
  split; [|apply strip_all_space]. unfold strip. intros H.
  apply rstrip_nil_iff in H.
  destruct (lstrip_decompose s) as [a [Hs Ha]]. rewrite Hs, all_space_app, Ha, H.
  reflexivity.
Qed.

(** The stripped string sits inside the string, between whitespace. *)
Lemma strip_decompose (s : pystr) :
  exists a b, s = a ++ strip s ++ b /\ all_space a = true /\ all_space b = true.
Proof.
  destruct (lstrip_decompose s) as [a [Hs Ha]].
  destruct (rstrip_decompose (lstrip s)) as [b [Hl Hb]].
  exists a, b. unfold strip. rewrite <- Hl. auto.
Qed.

Lemma strip_head (s : pystr) (c : pychar) (t : pystr) :
  strip s = c :: t -> isspace c = false.
Proof.
  unfold strip. intros H.
  destruct (lstrip s) as [|x l] eqn:E; [discriminate H|].
  pose proof (lstrip_head s x l E) as Hx.
  destruct (rstrip_cons_keep x l Hx) as [t' Ht]. rewrite Ht in H.
  inversion H; subst; exact Hx.
Qed.

Lemma strip_fixed_head (c : pychar) (t : pystr) :
  isspace c = false -> exists t', strip (c :: t) = c :: t'.
Proof.
  intros H. unfold strip. rewrite lstrip_fixed by exact H.
  apply rstrip_cons_keep, H.
Qed.

Lemma rstrip_idempotent (s : pystr) : rstrip (rstrip s) = rstrip s.
Proof.
  unfold rstrip. rewrite rev_involutive.
  destruct (lstrip (rev s)) as [|c t] eqn:E; [reflexivity|].
  rewrite (lstrip_fixed c t (lstrip_head _ _ _ E)). reflexivity.
Qed.

Lemma strip_idempotent (s : pystr) : strip (strip s) = strip s.
Proof.
  destruct (strip s) as [|c t] eqn:E; [reflexivity|].
  pose proof (strip_head s c t E) as Hc.
  unfold strip. rewrite lstrip_fixed by exact Hc.
  rewrite <- E. unfold strip. apply rstrip_idempotent.
Qed.

(** Whitespace around a string does not change what [strip] returns. *)
Lemma strip_padding (a s b : pystr) :
  all_space a = true -> all_space b = true -> strip (a ++ s ++ b) = strip s.
Proof.
  intros Ha Hb. unfold strip. rewrite lstrip_all_space by exact Ha.
  destruct (lstrip s) as [|c t] eqn:E.
  - apply lstrip_nil_iff in E.
    assert (all_space (s ++ b) = true) as H
      by (rewrite all_space_app, E, Hb; reflexivity).
    apply lstrip_nil_iff in H. rewrite H. reflexivity.
  - rewrite lstrip_app_keep by congruence. rewrite E.
    apply rstrip_all_space, Hb.
Qed.

Lemma strip_In (s : pystr) (c : pychar) : In c (strip s) -> In c s.
Proof.
  destruct (strip_decompose s) as [a [b [Hs _]]]. intros H.
  rewrite Hs. apply in_or_app. right. apply in_or_app. left. exact H.
Qed.

Lemma split_one (sep : pychar) (s p : pystr) :
  split sep s = [p] -> s = p /\ ~ In sep p.
Proof.
  revert p; induction s as [|c s IH]; intros p; simpl.
  - intros H; inversion H. auto.
  - destruct (N.eqb c sep) eqn:E.
    + intros H; inversion H as [[Hp Hs]]. exfalso. exact (split_not_nil _ _ Hs).
    + destruct (split sep s) as [|q qs] eqn:Es;
        [exfalso; exact (split_not_nil _ _ Es)|].
      intros H; inversion H; subst. destruct (IH q eq_refl) as [-> Hn].
      split; [reflexivity|]. apply N.eqb_neq in E.
      intros [Hc|Hin]; [congruence | exact (Hn Hin)].
Qed.

Lemma split_two (sep : pychar) (s p0 p1 : pystr) :
  split sep s = [p0; p1] ->
  s = p0 ++ sep :: p1 /\ ~ In sep p0 /\ ~ In sep p1.
Proof.
  revert p0; induction s as [|c s IH]; intros p0; simpl; [discriminate|].
  destruct (N.eqb c sep) eqn:E.
  - intros H; inversion H as [[Hp Hs]]. apply N.eqb_eq in E. subst c.
    destruct (split_one _ _ _ Hs) as [-> Hn]. simpl. auto.
  - destruct (split sep s) as [|q qs] eqn:Es;
      [exfalso; exact (split_not_nil _ _ Es)|].
    intros H; inversion H; subst.
    destruct (IH q eq_refl) as [-> [Hq Hp1]].
    split; [reflexivity|]. split; [|exact Hp1].
    apply N.eqb_neq in E. intros [Hc|Hin]; [congruence | exact (Hq Hin)].
Qed.

Lemma split_length (sep : pychar) (s : pystr) :
  List.length (split sep s) = S (count_occ N.eq_dec s sep).
Proof.
  induction s as [|c s IH]; simpl; [reflexivity|].
  destruct (N.eqb c sep) eqn:E.
  - apply N.eqb_eq in E. subst c.
    destruct (N.eq_dec sep sep) as [_|Hn]; [|congruence].
    simpl. rewrite IH. reflexivity.
  - apply N.eqb_neq in E.
    destruct (N.eq_dec c sep) as [He|_]; [congruence|].
    destruct (split sep s) as [|q qs] eqn:Es;
      [exfalso; exact (split_not_nil _ _ Es)|].
    simpl in *. exact IH.
Qed.

(** ** Loader: further properties *)

Lemma fold_flat (data : list pystr) (st : parser_state) :
  concat (sentences (fold_left process_line data st))
    ++ sentence (fold_left process_line data st)
  = concat (sentences st) ++ sentence st ++ map fst (data_of_lines data) /\
  concat (labels (fold_left process_line data st))
    ++ label (fold_left process_line data st)
  = concat (labels st) ++ label st ++ map snd (data_of_lines data).
Proof.
  revert st; induction data as [|raw data IH]; intros st; simpl.
  - rewrite !app_nil_r. auto.
  - destruct (data_of_line raw) as [[token tag]|] eqn:E.
    + rewrite (process_data st raw token tag E).
      destruct (IH (mk_state (sentences st) (labels st)
                      (sentence st ++ [token]) (label st ++ [tag])))
        as [H1 H2].
      rewrite H1, H2. simpl. rewrite <- !app_assoc. auto.
    + destruct (is_comment raw) eqn:C.
      * rewrite (process_comment st raw C).
        destruct (truthy (sentence st)) eqn:T.
        -- destruct (IH (flush st)) as [H1 H2]. rewrite H1, H2. simpl.
           rewrite !concat_app. simpl. rewrite !app_nil_r, <- !app_assoc. auto.
        -- apply IH.
      * rewrite (process_dropped st raw E C). apply IH.
Qed.

Lemma finish_flat (st : parser_state) :
  parallel st ->
  concat (fst (finish st)) = concat (sentences st) ++ sentence st /\
  concat (snd (finish st)) = concat (labels st) ++ label st.
Proof.
  intros [Hl _]. unfold finish. destruct st as [S L s l]. simpl in *.
  destruct s as [|x s]; simpl.
  - destruct l; [|discriminate]. rewrite !app_nil_r. auto.
  - rewrite !concat_app. simpl. rewrite !app_nil_r. auto.
Qed.

Lemma parse_lines_flat (data : list pystr) :
  concat (fst (parse_lines data)) = map fst (data_of_lines data) /\
  concat (snd (parse_lines data)) = map snd (data_of_lines data).
Proof.
  unfold parse_lines.
  destruct (finish_flat _ (fold_process_parallel data _ parallel_initial))
    as [H1 H2].
  destruct (fold_flat data initial_state) as [F1 F2].
  rewrite H1, H2, F1, F2. auto.
Qed.

(** X1: the tokens of all returned sentences, read in order, are exactly
    the stripped first fields of the data lines of the input, in input
    order, and the tags are their stripped second fields: no data line is
    lost, duplicated or reordered. *)
Theorem load_and_parse_iob_keeps_data_lines (text : pystr) :
  concat (fst (load_and_parse_iob text))
  = map fst (data_of_lines (split NEWLINE text)) /\
  concat (snd (load_and_parse_iob text))
  = map snd (data_of_lines (split NEWLINE text)).
Proof. apply parse_lines_flat. Qed.

Lemma commas_split (s : pystr) :
  List.length (split COMMA s) = S (commas s).
Proof. apply split_length. Qed.

(** X2: a line that is neither blank nor a comment is dropped without a
    trace when its stripped form does not contain exactly one comma; with
    exactly one comma it appends the stripped text before the comma to the
    sentence in progress and the stripped text after it to the tags. *)
Theorem data_line_needs_one_comma (st : parser_state) (raw : pystr) :
  is_blank raw = false -> is_comment raw = false ->
  (commas (strip raw) <> 1 -> process_line st raw = st) /\
  (commas (strip raw) = 1 ->
   exists before after,
     strip raw = before ++ COMMA :: after /\
     ~ In COMMA before /\ ~ In COMMA after /\
     process_line st raw
     = mk_state (sentences st) (labels st)
         (sentence st ++ [strip before]) (label st ++ [strip after])).
Proof.
  intros Hb Hc. pose proof (commas_split (strip raw)) as Hlen.
  unfold is_blank in Hb. unfold is_comment in Hc. unfold process_line.
  rewrite Hb, Hc. split; intros H.
  - destruct (split COMMA (strip raw)) as [|a [|b [|x parts]]];
      try reflexivity. simpl in Hlen. exfalso. apply H. lia.
  - rewrite H in Hlen.
    destruct (split COMMA (strip raw)) as [|a [|b [|x parts]]] eqn:E;
      try (simpl in Hlen; lia).
    destruct (split_two _ _ _ _ E) as [Hs [Ha Hb']].
    exists a, b. auto.
Qed.

Lemma data_line_needs_one_comma_witness :
  process_line initial_state (str "1,2-diol,O") = initial_state /\
  exists before after,
    strip (str " BRCA1 , B-Gene ") = before ++ COMMA :: after /\
    ~ In COMMA before /\ ~ In COMMA after /\
    process_line initial_state (str " BRCA1 , B-Gene ")
    = mk_state [] [] ([] ++ [strip before]) ([] ++ [strip after]).
Proof.
  split.
  - apply (data_line_needs_one_comma initial_state (str "1,2-diol,O")
             eq_refl eq_refl).
    vm_compute. discriminate.
  - apply (data_line_needs_one_comma initial_state (str " BRCA1 , B-Gene ")
             eq_refl eq_refl).
    reflexivity.
Defined.

Lemma process_line_strip (st : parser_state) (l l' : pystr) :
  strip l = strip l' -> process_line st l = process_line st l'.
Proof. intros H. unfold process_line. rewrite H. reflexivity. Qed.

Lemma fold_strip (data data' : list pystr) :
  Forall2 (fun l l' => strip l = strip l') data data' ->
  forall st, fold_left process_line data st = fold_left process_line data' st.
Proof.
  induction 1 as [|l l' d d' H _ IH]; intros st; simpl; [reflexivity|].
  rewrite (process_line_strip st l l' H). apply IH.
Qed.

Lemma split_crlf (text : pystr) :
  Forall2 (fun l l' => exists b, l = l' ++ b /\ all_space b = true)
          (split NEWLINE (crlf text)) (split NEWLINE text).
Proof.
  induction text as [|c text IH]; simpl.
  - constructor; [exists []; auto | constructor].
  - destruct (N.eqb c NEWLINE) eqn:E.
    + simpl. constructor; [|exact IH].
      exists [13%N]. auto.
    + simpl. rewrite E.
      inversion IH as [Ep Eq|p q ps qs [b [Hp Hb]] Hrest Ep Eq].
      * exfalso. symmetry in Eq. exact (split_not_nil _ _ Eq).
      * constructor; [|exact Hrest]. exists b. subst p. auto.
Qed.

(** X3: whitespace around a line is ignored - a line padded with
    whitespace on either side is parsed like the line itself - so a text
    whose lines end in carriage return and line feed gives the same
    sentences and tags as the text with bare line feeds. *)
Theorem load_and_parse_iob_ignores_line_padding (text : pystr)
    (st : parser_state) (a raw b : pystr) (pre post : list pystr) :
  all_space a = true -> all_space b = true ->
  process_line st (a ++ raw ++ b) = process_line st raw /\
  parse_lines (pre ++ (a ++ raw ++ b) :: post) = parse_lines (pre ++ raw :: post) /\
  load_and_parse_iob (crlf text) = load_and_parse_iob text.
Proof.
  intros Ha Hb.
  assert (forall s, process_line s (a ++ raw ++ b) = process_line s raw) as Hp
    by (intros s; apply process_line_strip, strip_padding; assumption).
  split; [apply Hp|]. split.
  - unfold parse_lines. rewrite !fold_left_app. simpl. rewrite Hp. reflexivity.
  - unfold load_and_parse_iob, parse_lines. f_equal. apply fold_strip.
    eapply Forall2_impl; [|apply split_crlf].
    intros l l' [w [-> Hw]]. simpl.
    rewrite <- (app_nil_l (l' ++ w)). apply strip_padding; [reflexivity | exact Hw].
Qed.

Lemma load_and_parse_iob_ignores_line_padding_witness :
  load_and_parse_iob (crlf (unlines [str "A,O"; str "# x"; str "B,B-RS"]))
  = load_and_parse_iob (unlines [str "A,O"; str "# x"; str "B,B-RS"]) /\
  process_line initial_state (str "  " ++ str "A,O" ++ [13%N])
  = process_line initial_state (str "A,O").
Proof.
  destruct (load_and_parse_iob_ignores_line_padding
              (unlines [str "A,O"; str "# x"; str "B,B-RS"])
              initial_state (str "  ") (str "A,O") [13%N] [] []
              eq_refl eq_refl) as [H1 [_ H3]].
  split; [exact H3 | exact H1].
Defined.

Lemma fold_sentences_bound (data : list pystr) (st : parser_state) :
  List.length (sentences (fold_left process_line data st))
  <= List.length (sentences st) + List.length (comment_lines data).
Proof.
  revert st; induction data as [|raw data IH]; intros st; simpl; [lia|].
  destruct (is_comment raw) eqn:C.
  - rewrite (process_comment st raw C). simpl.
    destruct (truthy (sentence st)).
    + specialize (IH (flush st)). simpl in IH. rewrite length_app in IH.
      simpl in IH. lia.
    + specialize (IH st). lia.
  - destruct (data_of_line raw) as [[token tag]|] eqn:E.
    + rewrite (process_data st raw token tag E).
      specialize (IH (mk_state (sentences st) (labels st)
                        (sentence st ++ [token]) (label st ++ [tag]))).
      simpl in IH. exact IH.
    + rewrite (process_dropped st raw E C). apply IH.
Qed.

Lemma concat_length_nonempty {A : Type} (L : list (list A)) :
  Forall (fun l => l <> []) L -> List.length L <= List.length (concat L).
Proof.
  induction 1 as [|l L Hl _ IH]; simpl; [lia|].
  rewrite length_app. destruct l; [congruence | simpl; lia].
Qed.

Lemma parse_lines_nonempty (data : list pystr) :
  Forall (fun s => s <> []) (fst (parse_lines data)).
Proof.
  pose proof (parse_lines_parallel data) as H.
  induction H as [|s l S L [_ Hne] _ IH]; constructor; assumption.
Qed.

(** X4: the number of sentences returned is at most the number of comment
    lines of the input plus one, and at most the number of data lines. *)
Theorem load_and_parse_iob_sentence_count (text : pystr) :
  List.length (fst (load_and_parse_iob text))
  <= S (List.length (comment_lines (split NEWLINE text))) /\
  List.length (fst (load_and_parse_iob text))
  <= List.length (data_of_lines (split NEWLINE text)).
Proof.
  unfold load_and_parse_iob. split.
  - unfold parse_lines.
    pose proof (fold_sentences_bound (split NEWLINE text) initial_state) as H.
    simpl in H. unfold finish.
    destruct (truthy (sentence _)); simpl; [rewrite length_app; simpl|]; lia.
  - pose proof (concat_length_nonempty _
                  (parse_lines_nonempty (split NEWLINE text))) as H.
    rewrite (proj1 (parse_lines_flat (split NEWLINE text))), length_map in H.
    exact H.
Qed.

Lemma parse_lines_nil : parse_lines [] = ([], []).
Proof. reflexivity. Qed.

(** X5: a comment line at the start of the input, at its end, or right
    after another comment line changes nothing: the result is the one
    obtained without that line. *)
Theorem redundant_comment_lines (pre post : list pystr) (raw raw' : pystr) :
  is_comment raw = true -> is_comment raw' = true ->
  parse_lines (raw :: post) = parse_lines post /\
  parse_lines (pre ++ [raw]) = parse_lines pre /\
  parse_lines (pre ++ raw :: raw' :: post) = parse_lines (pre ++ raw :: post).
Proof.
  intros H H'.
  assert (forall r q, is_comment r = true ->
            parse_lines (r :: q) = parse_lines q) as Hhead.
  { intros r q Hr. pose proof (parse_lines_comment [] q r Hr) as Hq.
    rewrite parse_lines_nil in Hq. simpl in Hq. rewrite Hq.
    destruct (parse_lines q); reflexivity. }
  split; [apply Hhead, H|]. split.
  - rewrite (parse_lines_comment pre [] raw H), parse_lines_nil. simpl.
    rewrite !app_nil_r. destruct (parse_lines pre); reflexivity.
  - rewrite (parse_lines_comment pre (raw' :: post) raw H).
    rewrite (Hhead raw' post H').
    rewrite (parse_lines_comment pre post raw H). reflexivity.
Qed.

Lemma redundant_comment_lines_witness :
  parse_lines ([str "A,O"] ++ str "# 1" :: str "#2" :: [str "B,O"])
  = parse_lines ([str "A,O"] ++ str "# 1" :: [str "B,O"]).
Proof.
  exact (proj2 (proj2 (redundant_comment_lines [str "A,O"] [str "B,O"]
                         (str "# 1") (str "#2") eq_refl eq_refl))).
Defined.

Lemma data_of_lines_In (data : list pystr) (p : pystr * pystr) :
  In p (data_of_lines data) ->
  exists raw, In raw data /\ data_of_line raw = Some p.
Proof.
  induction data as [|raw data IH]; simpl; [tauto|].
  destruct (data_of_line raw) as [q|] eqn:E.
  - intros [<-|H]; [exists raw; auto|].
    destruct (IH H) as [r [Hr Hd]]. exists r. auto.
  - intros H. destruct (IH H) as [r [Hr Hd]]. exists r. auto.
Qed.

Lemma split_parts_no_sep (sep : pychar) (s : pystr) :
  Forall (fun p => ~ In sep p) (split sep s).
Proof.
  induction s as [|c s IH]; simpl; [constructor; [tauto | constructor]|].
  destruct (N.eqb c sep) eqn:E; [constructor; [tauto | exact IH]|].
  destruct (split sep s) as [|p ps]; [constructor; [|constructor]|].
  - apply N.eqb_neq in E. intros [H|[]]. congruence.
  - inversion IH; subst. constructor; [|assumption].
    apply N.eqb_neq in E. intros [H|H]; [congruence | tauto].
Qed.

Lemma data_line_fields (raw token tag : pystr) :
  data_of_line raw = Some (token, tag) ->
  exists before after,
    strip raw = before ++ COMMA :: after /\
    ~ In COMMA before /\ ~ In COMMA after /\
    token = strip before /\ tag = strip after /\
    startswith (strip raw) HASH = false.
Proof.
  unfold data_of_line, is_blank, is_comment.
  destruct (negb (truthy (strip raw))); [discriminate|].
  destruct (startswith (strip raw) HASH) eqn:C; [discriminate|].
  destruct (split COMMA (strip raw)) as [|a [|b [|x parts]]] eqn:E;
    try discriminate.
  intros H; inversion H; subst.
  destruct (split_two _ _ _ _ E) as [Hs [Ha Hb]].
  exists a, b. split; [exact Hs|]. split; [exact Ha|]. split; [exact Hb|].
  auto.
Qed.

Lemma strip_stripped (s : pystr) : stripped (strip s).
Proof. apply strip_idempotent. Qed.

Lemma field_plain (raw part : pystr) (a b : pystr) :
  ~ In NEWLINE raw -> strip raw = a ++ part ++ b -> ~ In COMMA part ->
  plain (strip part).
Proof.
  intros Hn Hs Hc. split; [apply strip_stripped|]. split.
  - intros H. apply Hc, strip_In, H.
  - intros H. apply Hn, strip_In. rewrite Hs.
    apply in_or_app; right; apply in_or_app; left. apply strip_In, H.
Qed.

(** X6: every token and every tag returned by [load_and_parse_iob] is
    free of commas and line feeds and has no whitespace at either end, and
    no token starts with the comment marker. *)
Theorem load_and_parse_iob_fields_plain (text : pystr) :
  Forall (Forall (fun token => plain token /\ startswith token HASH = false))
         (fst (load_and_parse_iob text)) /\
  Forall (Forall plain) (snd (load_and_parse_iob text)).
Proof.
  assert (forall p, In p (data_of_lines (split NEWLINE text)) ->
            (plain (fst p) /\ startswith (fst p) HASH = false) /\ plain (snd p))
    as Hdata.
  { intros [token tag] Hp.
    destruct (data_of_lines_In _ _ Hp) as [raw [Hraw Hd]].
    pose proof (split_parts_no_sep NEWLINE text) as Hn.
    rewrite Forall_forall in Hn. specialize (Hn raw Hraw).
    destruct (data_line_fields raw token tag Hd)
      as [before [after [Hs [Hb [Ha [-> [-> Hc]]]]]]]. simpl.
    split; [split|].
    - apply (field_plain raw before [] (COMMA :: after)); assumption.
    - destruct before as [|c before']; [reflexivity|].
      rewrite Hs in Hc. simpl in Hc.
      assert (isspace c = false) as Hsp
        by (apply (strip_head raw c (before' ++ COMMA :: after)); exact Hs).
      destruct (strip_fixed_head c before' Hsp) as [t' ->]. exact Hc.
    - apply (field_plain raw after (before ++ [COMMA]) []); [assumption| |assumption].
      rewrite Hs, app_nil_r, <- app_assoc. reflexivity. }
  destruct (parse_lines_flat (split NEWLINE text)) as [Ht Hg].
  unfold load_and_parse_iob. split; apply Forall_forall; intros row Hrow;
    apply Forall_forall; intros x Hx.
  - assert (In x (concat (fst (parse_lines (split NEWLINE text))))) as Hin
      by (apply in_concat; exists row; auto).
    rewrite Ht in Hin. apply in_map_iff in Hin as [p [<- Hp]].
    apply (Hdata p Hp).
  - assert (In x (concat (snd (parse_lines (split NEWLINE text))))) as Hin
      by (apply in_concat; exists row; auto).
    rewrite Hg in Hin. apply in_map_iff in Hin as [p [<- Hp]].
    apply (Hdata p Hp).
Qed.

Lemma stripped_lstrip (s : pystr) : stripped s -> lstrip s = s.
Proof.
  unfold stripped. intros H. destruct s as [|c t]; [reflexivity|].
  apply lstrip_fixed. exact (strip_head _ _ _ H).
Qed.

Lemma stripped_rstrip (s : pystr) : stripped s -> rstrip s = s.
Proof.
  intros H. pose proof (stripped_lstrip s H) as Hl.
  unfold stripped, strip in H. rewrite Hl in H. exact H.
Qed.

Lemma COMMA_not_space : isspace COMMA = false.
Proof. reflexivity. Qed.

Lemma data_line_stripped (token tag : pystr) :
  stripped token -> stripped tag -> stripped (data_line (token, tag)).
Proof.
  intros Ht Hg. unfold stripped, strip, data_line. simpl.
  assert (lstrip (token ++ COMMA :: tag) = token ++ COMMA :: tag) as ->.
  { destruct token as [|c t]; [reflexivity|].
    simpl. rewrite (strip_head _ _ _ Ht). reflexivity. }
  assert (rstrip (COMMA :: tag) = COMMA :: tag) as Hr.
  { destruct tag as [|c t]; [reflexivity|].
    change (COMMA :: c :: t) with ([COMMA] ++ c :: t).
    rewrite rstrip_app_keep; rewrite (stripped_rstrip _ Hg);
      [reflexivity | discriminate]. }
  rewrite rstrip_app_keep; rewrite Hr; [reflexivity | discriminate].
Qed.

Lemma data_of_data_line (p : pystr * pystr) :
  writable p -> data_of_line (data_line p) = Some p /\
                is_comment (data_line p) = false.
Proof.
  destruct p as [token tag]. intros [[Ht [Htc Htn]] [Hh [Hg [Hgc Hgn]]]].
  simpl in *. pose proof (data_line_stripped token tag Ht Hg) as Hs.
  unfold stripped in Hs.
  assert (is_comment (data_line (token, tag)) = false) as Hc.
  { unfold is_comment. rewrite Hs. unfold data_line. simpl.
    destruct token; [reflexivity | exact Hh]. }
  split; [|exact Hc].
  assert (is_blank (data_line (token, tag)) = false) as Hb.
  { unfold is_blank. rewrite Hs. unfold data_line. simpl.
    destruct token; reflexivity. }
  unfold data_of_line. rewrite Hb, Hc, Hs. unfold data_line. simpl fst. simpl snd.
  rewrite split_app, (split_no_sep COMMA token Htc), (split_no_sep COMMA tag Hgc).
  cbv beta iota. unfold stripped in Ht, Hg. simpl app. cbv beta iota.
  rewrite Ht, Hg. reflexivity.
Qed.

Lemma data_of_data_lines (s : list (pystr * pystr)) :
  Forall writable s ->
  data_of_lines (map data_line s) = s /\
  forallb (fun x => negb (is_comment x)) (map data_line s) = true.
Proof.
  induction 1 as [|p s Hp _ [IH1 IH2]]; simpl; [auto|].
  destruct (data_of_data_line p Hp) as [Hd Hc].
  rewrite Hd, Hc, IH1, IH2. auto.
Qed.

Lemma HASH_is_comment : is_comment [HASH] = true.
Proof. reflexivity. Qed.

Lemma parse_lines_leading_comment (raw : pystr) (post : list pystr) :
  is_comment raw = true -> parse_lines (raw :: post) = parse_lines post.
Proof.
  intros Hr. pose proof (parse_lines_comment [] post raw Hr) as Hq.
  rewrite parse_lines_nil in Hq. simpl in Hq. rewrite Hq.
  destruct (parse_lines post); reflexivity.
Qed.

Lemma parse_before_corpus (D : list pystr)
    (corpus : list (list (pystr * pystr))) :
  parse_lines (D ++ corpus_lines corpus)
  = (fst (parse_lines D) ++ fst (parse_lines (corpus_lines corpus)),
     snd (parse_lines D) ++ snd (parse_lines (corpus_lines corpus))).
Proof.
  destruct corpus as [|s rest]; simpl.
  - rewrite !app_nil_r. destruct (parse_lines D); reflexivity.
  - rewrite (parse_lines_comment D _ [HASH] HASH_is_comment).
    rewrite (parse_lines_leading_comment [HASH] _ HASH_is_comment).
    reflexivity.
Qed.

Lemma parse_corpus_lines (corpus : list (list (pystr * pystr))) :
  Forall (fun s => s <> [] /\ Forall writable s) corpus ->
  parse_lines (corpus_lines corpus)
  = (map (map fst) corpus, map (map snd) corpus).
Proof.
  induction 1 as [|s rest [Hne Hw] _ IH]; [reflexivity|].
  simpl. rewrite (parse_lines_leading_comment [HASH] _ HASH_is_comment).
  rewrite parse_before_corpus, IH.
  destruct (data_of_data_lines s Hw) as [Hd Hc].
  rewrite (parse_lines_no_comment _ Hc), Hd.
  destruct s; [congruence | reflexivity].
Qed.

Lemma corpus_lines_no_newline (corpus : list (list (pystr * pystr))) :
  Forall (fun s => s <> [] /\ Forall writable s) corpus ->
  Forall (fun x => ~ In NEWLINE x) (corpus_lines corpus).
Proof.
  induction 1 as [|s rest [_ Hw] _ IH]; simpl; [constructor|].
  constructor; [intros [H|[]]; discriminate H|].
  apply Forall_app. split; [|exact IH].
  apply Forall_forall. intros x Hx. apply in_map_iff in Hx as [p [<- Hp]].
  rewrite Forall_forall in Hw.
  destruct (Hw p Hp) as [[_ [_ Htn]] [_ [_ [_ Hgn]]]].
  unfold data_line. intros Hin. apply in_app_or in Hin as [Hin|[Hin|Hin]];
    [exact (Htn Hin) | discriminate Hin | exact (Hgn Hin)].
Qed.

(** X7: writing a corpus out and reading it back gives the corpus.  For
    non-empty sentences whose tokens and tags have no comma, no line feed
    and no whitespace at their ends, and whose tokens do not start with the
    comment marker, the text that puts a comment line before each sentence
    and one "token,tag" line per token is parsed into exactly those
    sentences and tag lists. *)
Theorem load_and_parse_iob_reads_back (corpus : list (list (pystr * pystr))) :
  Forall (fun s => s <> [] /\ Forall writable s) corpus ->
  load_and_parse_iob (unlines (corpus_lines corpus))
  = (map (map fst) corpus, map (map snd) corpus).
Proof.
  intros H. rewrite load_unlines by (apply corpus_lines_no_newline; exact H).
  apply parse_corpus_lines, H.
Qed.

Ltac not_in_literal :=
  let H := fresh "H" in
  intros H; simpl in H;
  repeat (destruct H as [H|H]; [discriminate H|]); exact H.

Ltac plain_literal :=
  split; [reflexivity | split; not_in_literal].

Lemma load_and_parse_iob_reads_back_witness :
  load_and_parse_iob
    (unlines (corpus_lines
                [[(str "Arg123", str "B-Gene"); (str "His", str "I-Gene")];
                 [(str "The", str "O")]]))
  = ([[str "Arg123"; str "His"]; [str "The"]],
     [[str "B-Gene"; str "I-Gene"]; [str "O"]]).
Proof.
  apply (load_and_parse_iob_reads_back
           [[(str "Arg123", str "B-Gene"); (str "His", str "I-Gene")];
            [(str "The", str "O")]]).
  repeat constructor; try discriminate; try reflexivity; try not_in_literal.
Defined.

(** ** Vocabulary: further properties *)

Lemma clean_labels_concat (corpus : list (list pystr)) :
  concat (clean_corpus corpus) = clean_labels (concat corpus).
Proof.
  unfold clean_corpus, clean_labels. symmetry. apply concat_map.
Qed.

Lemma clean_labels_In (label_list : list pystr) (t : pystr) :
  In t (clean_labels label_list) <->
  (allowed t /\ In t label_list) \/
  (t = str "O" /\ exists u, In u label_list /\ ~ allowed u).
Proof.
  unfold clean_labels. rewrite in_map_iff. split.
  - intros [u [Hu Hin]]. destruct (contains expected_labels u) eqn:E.
    + left. subst t. split; [apply contains_expected, E | exact Hin].
    + right. split; [auto|]. exists u. split; [exact Hin|].
      intros Ha. apply contains_expected in Ha. congruence.
  - intros [[Ha Hin]|[-> [u [Hin Hn]]]].
    + exists t. apply contains_expected in Ha. rewrite Ha. auto.
    + exists u. split; [|exact Hin].
      destruct (contains expected_labels u) eqn:E; [|reflexivity].
      exfalso. apply Hn, contains_expected, E.
Qed.

Lemma vocabulary_NoDup (set_order : list pystr -> list pystr)
    (cleaned : list (list pystr)) :
  (forall elems, list_of_set elems (set_order elems)) ->
  NoDup (cleaned_unique_labels set_order cleaned).
Proof. intros H. apply (proj1 (H _)). Qed.

Lemma vocabulary_allowed (set_order : list pystr -> list pystr)
    (train_labels : list (list pystr)) (t : pystr) :
  (forall elems, list_of_set elems (set_order elems)) ->
  In t (cleaned_unique_labels set_order (clean_corpus train_labels)) ->
  allowed t.
Proof.
  intros Hset Hin. apply (vocabulary_In set_order _ t Hset) in Hin
    as [row [Hrow Ht]].
  unfold clean_corpus in Hrow. apply in_map_iff in Hrow as [raw [<- _]].
  pose proof (clean_labels_allowed raw) as Ha. rewrite Forall_forall in Ha.
  apply Ha, Ht.
Qed.

Lemma vocabulary_length (set_order : list pystr -> list pystr)
    (train_labels : list (list pystr)) :
  (forall elems, list_of_set elems (set_order elems)) ->
  List.length (cleaned_unique_labels set_order (clean_corpus train_labels)) <= 6.
Proof.
  intros Hset.
  change 6 with (List.length expected_labels).
  apply NoDup_incl_length; [apply vocabulary_NoDup, Hset|].
  intros t Ht. apply contains_In, contains_expected.
  eapply vocabulary_allowed; eassumption.
Qed.

(** X8: the label vocabulary built from any training corpus lists each of
    its tags once, holds only allowed tags and so has at most six entries
    (the number of output classes the model is created with); it is empty
    exactly when the training corpus has no tag at all. *)
Theorem vocabulary_distinct_allowed_small
    (set_order : list pystr -> list pystr) (train_labels : list (list pystr)) :
  (forall elems, list_of_set elems (set_order elems)) ->
  NoDup (cleaned_unique_labels set_order (clean_corpus train_labels)) /\
  Forall allowed (cleaned_unique_labels set_order (clean_corpus train_labels)) /\
  List.length (cleaned_unique_labels set_order (clean_corpus train_labels)) <= 6 /\
  (cleaned_unique_labels set_order (clean_corpus train_labels) = [] <->
   concat train_labels = []).
Proof.
  intros Hset. split; [apply vocabulary_NoDup, Hset|]. split; [|split].
  - apply Forall_forall. intros t. apply vocabulary_allowed, Hset.
  - apply vocabulary_length, Hset.
  - unfold cleaned_unique_labels. rewrite clean_labels_concat.
    destruct (Hset (clean_labels (concat train_labels))) as [_ Hin].
    split; intros H.
    + destruct (concat train_labels) as [|t l]; [reflexivity|].
      exfalso.
      pose proof (proj2 (Hin (if contains expected_labels t then t
                              else str "O"))) as Hx.
      rewrite H in Hx. apply Hx. rewrite clean_labels_cons. left; reflexivity.
    + rewrite H in *. simpl in *.
      destruct (set_order []) as [|t l]; [reflexivity|].
      exfalso. apply (proj1 (Hin t)). left; reflexivity.
Qed.

Lemma vocabulary_distinct_allowed_small_witness :
  List.length (cleaned_unique_labels first_seen
                 (clean_corpus [[str "O"; str "B-Gene"; str "O"];
                                [str "B-Disease"; str "B-Gene"]])) <= 6.
Proof.
  exact (proj1 (proj2 (proj2
           (vocabulary_distinct_allowed_small first_seen
              [[str "O"; str "B-Gene"; str "O"]; [str "B-Disease"; str "B-Gene"]]
              first_seen_list_of_set)))).
Defined.

(** X9: a tag is in the label vocabulary exactly when it is an allowed tag
    that occurs in the raw training tags, or it is "O" and some raw
    training tag is not allowed.  So "O" is in the vocabulary only if the
    training corpus holds an "O" or a tag outside the allowed set. *)
Theorem vocabulary_membership
    (set_order : list pystr -> list pystr) (train_labels : list (list pystr))
    (t : pystr) :
  (forall elems, list_of_set elems (set_order elems)) ->
  (In t (cleaned_unique_labels set_order (clean_corpus train_labels)) <->
   (allowed t /\ In t (concat train_labels)) \/
   (t = str "O" /\ exists u, In u (concat train_labels) /\ ~ allowed u)).
Proof.
  intros Hset. unfold cleaned_unique_labels.
  rewrite (proj2 (Hset _) t), clean_labels_concat. apply clean_labels_In.
Qed.

Lemma vocabulary_membership_witness :
  ~ In (str "O")
      (cleaned_unique_labels first_seen (clean_corpus [[str "B-Gene"; str "I-Gene"]])).
Proof.
  intros H.
  apply (vocabulary_membership first_seen [[str "B-Gene"; str "I-Gene"]]
           (str "O") first_seen_list_of_set) in H.
  destruct H as [[_ H]|[_ [u [Hin Hn]]]].
  - simpl in H. destruct H as [H|[H|[]]]; discriminate H.
  - apply Hn. simpl in Hin. destruct Hin as [<-|[<-|[]]].
    + right; left; reflexivity.
    + right; right; left; reflexivity.
Defined.

(** X10: the index of a tag and the entry at an index are inverse to each
    other on the label vocabulary: [index] returns [k] for a tag exactly
    when the entry at [k] is that tag, and then reading entry [k] back, as
    the decoding does, returns the tag. *)
Theorem vocabulary_index_inverse
    (set_order : list pystr -> list pystr) (train_labels : list (list pystr))
    (tag : pystr) (k : nat) :
  (forall elems, list_of_set elems (set_order elems)) ->
  (index (cleaned_unique_labels set_order (clean_corpus train_labels)) tag = ok k
   <-> nth_error (cleaned_unique_labels set_order (clean_corpus train_labels)) k
       = Some tag) /\
  (index (cleaned_unique_labels set_order (clean_corpus train_labels)) tag = ok k ->
   getitem_int (cleaned_unique_labels set_order (clean_corpus train_labels))
     (Z.of_nat k) = ok tag).
Proof.
  intros Hset. split.
  - split; [apply index_ok_nth | apply index_NoDup, vocabulary_NoDup, Hset].
  - intros H. apply index_ok_nth in H. unfold getitem_int, getitem.
    destruct (Z.leb_spec 0 (Z.of_nat k)) as [_|Hneg]; [|lia].
    rewrite Nat2Z.id, H. reflexivity.
Qed.

Lemma vocabulary_index_inverse_witness :
  index (cleaned_unique_labels first_seen
           (clean_corpus [[str "O"; str "B-Gene"]])) (str "B-Gene") = ok 1.
Proof.
  apply (vocabulary_index_inverse first_seen [[str "O"; str "B-Gene"]]
           (str "B-Gene") 1 first_seen_list_of_set).
  reflexivity.
Defined.

(** ** Subword alignment: further properties *)

Lemma index_raise (l : list pystr) (x : pystr) (e : exn) :
  index l x = raise e -> e = ValueError /\ ~ In x l.
Proof.
  induction l as [|y l IH]; simpl.
  - intros H; inversion H. auto.
  - destruct (pystr_eqb y x) eqn:E; [discriminate|].
    destruct (index l x) as [e'|k] eqn:Ei; simpl; [|discriminate].
    intros H; inversion H; subst e'. destruct (IH eq_refl) as [He Hn].
    split; [exact He|]. apply pystr_eqb_neq in E. intros [Hy|Hin]; tauto.
Qed.

Lemma index_bound (l : list pystr) (x : pystr) (k : nat) :
  index l x = ok k -> k < List.length l.
Proof.
  intros H. apply index_ok_nth in H.
  apply nth_error_Some. congruence.
Qed.

Lemma previous_at_cons (prev x : option nat) (rest : list (option nat))
    (i : nat) :
  previous_at prev (x :: rest) (S i) = previous_at x rest i.
Proof. destruct i; reflexivity. Qed.

(** How a run of the loop ends: with the labels, or at the first start of
    a word whose tag cannot be looked up. *)
Lemma align_result_cases (vocab label : list pystr)
    (word_ids : list (option nat)) :
  forall prev,
  (exists ids, align_label_ids vocab label prev word_ids = ok ids) \/
  (exists i w e,
     word_at word_ids i w /\
     word_idx_eqb (Some w) (previous_at prev word_ids i) = false /\
     align_label_ids vocab label prev word_ids = raise e /\
     ((e = IndexError /\ List.length label <= w) \/
      (e = ValueError /\
       exists tag, nth_error label w = Some tag /\ ~ In tag vocab))).
Proof.
  induction word_ids as [|x rest IH]; intros prev.
  - left. exists []. reflexivity.
  - assert (forall y,
              align_label_ids vocab label prev (x :: rest)
              = (label_ids <- align_label_ids vocab label x rest ;;
                 ok (y :: label_ids)) ->
              (exists ids,
                 align_label_ids vocab label prev (x :: rest) = ok ids) \/
              (exists i w e,
                 word_at (x :: rest) i w /\
                 word_idx_eqb (Some w) (previous_at prev (x :: rest) i) = false /\
                 align_label_ids vocab label prev (x :: rest) = raise e /\
                 ((e = IndexError /\ List.length label <= w) \/
                  (e = ValueError /\
                   exists tag, nth_error label w = Some tag /\ ~ In tag vocab))))
      as Hrest.
    { intros y Hy. rewrite Hy.
      destruct (IH x) as [[ids Hids]|[i [w [e [Hw [Ht [He Hc]]]]]]].
      - left. rewrite Hids. exists (y :: ids). reflexivity.
      - right. exists (S i), w, e. rewrite previous_at_cons, He. auto. }
    destruct x as [w|]; [|apply (Hrest IGNORE); reflexivity].
    destruct (word_idx_eqb (Some w) prev) eqn:E.
    + apply (Hrest IGNORE). simpl. rewrite E. reflexivity.
    + destruct (nth_error label w) as [tag|] eqn:Et.
      * destruct (index vocab tag) as [e|k] eqn:Ek.
        -- right. exists 0, w, e. split; [reflexivity|]. split; [exact E|].
           split.
           ++ simpl. rewrite E. unfold getitem. rewrite Et. simpl.
              rewrite Ek. reflexivity.
           ++ right. destruct (index_raise _ _ _ Ek) as [-> Hn].
              split; [reflexivity|]. exists tag. auto.
        -- apply (Hrest (Z.of_nat k)). simpl. rewrite E. unfold getitem.
           rewrite Et. simpl. rewrite Ek. reflexivity.
      * right. exists 0, w, IndexError. split; [reflexivity|].
        split; [exact E|]. split.
        -- simpl. rewrite E. unfold getitem. rewrite Et. reflexivity.
        -- left. split; [reflexivity|]. apply nth_error_None, Et.
Qed.

Lemma starts_word_previous (word_ids : list (option nat)) (i w : nat) :
  word_at word_ids i w ->
  word_idx_eqb (Some w) (previous_at None word_ids i) = false ->
  starts_word word_ids i w.
Proof. intros Hw. apply (starts_word_test word_ids i w Hw). Qed.

(** X11: the alignment of a sentence returns exactly when every position
    that starts a word in the mapping has a tag and that tag is in the
    vocabulary.  When it raises, there is a position starting a word whose
    index is beyond the tags (IndexError) or whose tag is missing from the
    vocabulary (ValueError); continuation positions and special tokens never
    cause an error. *)
Theorem alignment_returns_or_raises (vocab label : list pystr)
    (word_ids : list (option nat)) :
  ((exists ids, align_label_ids vocab label None word_ids = ok ids) <->
   (forall i w, starts_word word_ids i w ->
      exists tag, nth_error label w = Some tag /\ In tag vocab)) /\
  (forall e, align_label_ids vocab label None word_ids = raise e ->
     exists i w,
       starts_word word_ids i w /\
       ((e = IndexError /\ List.length label <= w) \/
        (e = ValueError /\
         exists tag, nth_error label w = Some tag /\ ~ In tag vocab))).
Proof.
  split; [split|].
  - intros [ids Ha] i w Hs.
    destruct (align_word_position _ _ _ _ i w Ha (proj1 Hs)) as [H _].
    destruct (H Hs) as [tag [k [Ht [Hk _]]]].
    exists tag. split; [exact Ht | eapply index_ok_In, Hk].
  - intros H.
    destruct (align_result_cases vocab label word_ids None)
      as [Hok|[i [w [e [Hw [Ht [_ Hc]]]]]]]; [exact Hok|].
    exfalso. destruct (H i w (starts_word_previous _ _ _ Hw Ht))
      as [tag [Htag Hin]].
    destruct Hc as [[_ Hlen]|[_ [tag' [Htag' Hn]]]].
    + apply nth_error_None in Hlen. congruence.
    + apply Hn. congruence.
  - intros e He.
    destruct (align_result_cases vocab label word_ids None)
      as [[ids Hok]|[i [w [e' [Hw [Ht [He' Hc]]]]]]];
      [rewrite Hok in He; discriminate He|].
    assert (e' = e) as -> by (rewrite He in He'; inversion He'; reflexivity).
    exists i, w. split; [apply starts_word_previous; assumption | exact Hc].
Qed.

Lemma alignment_returns_or_raises_witness :
  exists i w,
    starts_word [None; Some 0; Some 0; Some 1; None] i w /\
    ((ValueError = IndexError /\ List.length [str "O"; str "B-RS"] <= w) \/
     (ValueError = ValueError /\
      exists tag, nth_error [str "O"; str "B-RS"] w = Some tag /\
                  ~ In tag [str "O"])).
Proof.
  apply (proj2 (alignment_returns_or_raises [str "O"] [str "O"; str "B-RS"]
                  [None; Some 0; Some 0; Some 1; None]) ValueError).
  reflexivity.
Defined.

Lemma align_valid_ids (vocab label : list pystr) (word_ids : list (option nat)) :
  forall prev ids,
    align_label_ids vocab label prev word_ids = ok ids ->
    Forall (valid_label_id vocab) ids.
Proof.
  induction word_ids as [|x rest IH]; intros prev ids H.
  - simpl in H. inversion H. constructor.
  - apply align_cons in H as [y [ys [-> [Hrest Hy]]]].
    constructor; [|eapply IH; exact Hrest].
    destruct x as [w|]; [|left; exact Hy].
    destruct (word_idx_eqb (Some w) prev); [left; exact Hy|].
    destruct Hy as [tag [k [_ [Hk ->]]]]. right.
    apply index_bound in Hk. lia.
Qed.

(** X12: every label id produced by the alignment is either -100 or an
    index below the size of the vocabulary - with the vocabulary of the
    training corpus, below six. *)
Theorem alignment_ids_valid (set_order : list pystr -> list pystr)
    (train_labels : list (list pystr)) (label : list pystr)
    (word_ids : list (option nat)) (ids : list Z) :
  (forall elems, list_of_set elems (set_order elems)) ->
  align_label_ids (cleaned_unique_labels set_order (clean_corpus train_labels))
    label None word_ids = ok ids ->
  Forall (fun x => x = IGNORE \/ (0 <= x < 6)%Z) ids /\
  Forall (valid_label_id
            (cleaned_unique_labels set_order (clean_corpus train_labels))) ids.
Proof.
  intros Hset H. pose proof (align_valid_ids _ _ _ _ _ H) as Hv.
  split; [|exact Hv]. eapply Forall_impl; [|exact Hv].
  intros x [Hx|Hx]; [left; exact Hx | right].
  pose proof (vocabulary_length set_order train_labels Hset). lia.
Qed.

Lemma alignment_ids_valid_witness :
  Forall (fun x => x = IGNORE \/ (0 <= x < 6)%Z)
         [IGNORE; 1%Z; IGNORE; 0%Z; IGNORE].
Proof.
  exact (proj1 (alignment_ids_valid first_seen [[str "O"; str "B-Gene"]]
                  [str "B-Gene"; str "O"]
                  [None; Some 0; Some 0; Some 1; None]
                  [IGNORE; 1%Z; IGNORE; 0%Z; IGNORE]
                  first_seen_list_of_set eq_refl)).
Defined.

(** X13: whatever the mapping, position by position: a special-token
    position gets -100; a position carrying word [w] gets -100 when the
    position just before it carries [w] too, and otherwise - at position 0
    or after a different or absent word index - the vocabulary index of the
    tag of [w], even if [w] was labelled earlier. *)
Theorem alignment_position_rule (vocab label : list pystr)
    (word_ids : list (option nat)) (ids : list Z) (i : nat) :
  align_label_ids vocab label None word_ids = ok ids ->
  (nth_error word_ids i = Some None -> nth_error ids i = Some IGNORE) /\
  (forall w, word_at word_ids i w ->
     (previous_at None word_ids i = Some w -> nth_error ids i = Some IGNORE) /\
     (previous_at None word_ids i <> Some w ->
      exists tag k,
        nth_error label w = Some tag /\ index vocab tag = ok k /\
        nth_error ids i = Some (Z.of_nat k))).
Proof.
  intros Ha. destruct (align_positions _ _ _ _ _ Ha) as [_ Hpos]. split.
  - intros Hi. exact (Hpos i None Hi).
  - intros w Hw. specialize (Hpos i (Some w) Hw). simpl in Hpos.
    change (match i with
            | 0 => None
            | S i' => match nth_error word_ids i' with
                      | Some p => p
                      | None => None
                      end
            end) with (previous_at None word_ids i) in Hpos.
    destruct (word_idx_eqb (Some w) (previous_at None word_ids i)) eqn:E.
    + apply word_idx_eqb_eq in E. split; [intros _; exact Hpos|].
      intros Hn. congruence.
    + split; [|intros _; exact Hpos].
      intros Hp. rewrite Hp in E.
      assert (word_idx_eqb (Some w) (Some w) = true) as T
        by (apply word_idx_eqb_eq; reflexivity).
      congruence.
Qed.

Lemma alignment_position_rule_witness :
  exists tag k,
    nth_error [str "B-SNP"; str "O"] 0 = Some tag /\
    index [str "O"; str "B-SNP"] tag = ok k /\
    nth_error [1%Z; 0%Z; 1%Z] 2 = Some (Z.of_nat k).
Proof.
  destruct (alignment_position_rule [str "O"; str "B-SNP"]
              [str "B-SNP"; str "O"] [Some 0; Some 1; Some 0]
              [1%Z; 0%Z; 1%Z] 2 eq_refl) as [_ H].
  destruct (H 0 eq_refl) as [_ Hstart].
  apply Hstart. discriminate.
Defined.

Lemma align_app_iff (vocab label : list pystr) (a b : list (option nat)) :
  forall prev ids,
    align_label_ids vocab label prev (a ++ b) = ok ids <->
    exists ia ib,
      ids = ia ++ ib /\
      align_label_ids vocab label prev a = ok ia /\
      align_label_ids vocab label (last a prev) b = ok ib.
Proof.
  induction a as [|x a IH]; intros prev ids.
  - simpl. split.
    + intros H. exists [], ids. auto.
    + intros [ia [ib [-> [Ha Hb]]]]. inversion Ha; subst. exact Hb.
  - assert (last (x :: a) prev = last a x) as Hlast.
    { clear. revert x prev. induction a as [|y a IH]; intros x d;
        [reflexivity|].
      change (last (x :: y :: a) d) with (last (y :: a) d).
      rewrite (IH y d), (IH y x). reflexivity. }
    rewrite Hlast. change ((x :: a) ++ b) with (x :: (a ++ b)).
    simpl align_label_ids.
    destruct (match x with
              | Some w =>
                  if negb (word_idx_eqb x prev)
                  then tag <- getitem label w;;
                       k <- index vocab tag;; ok (Z.of_nat k)
                  else ok IGNORE
              | None => ok IGNORE
              end) as [e|y]; simpl.
    + split; [discriminate|]. intros [ia [ib [_ [H _]]]]. discriminate H.
    + split.
      * intros H. apply bind_ok in H as [ys [Hys H]]. inversion H; subst ids.
        apply IH in Hys as [ia [ib [-> [Ha Hb]]]].
        exists (y :: ia), ib. rewrite Ha. auto.
      * intros [ia [ib [-> [Ha Hb]]]].
        apply bind_ok in Ha as [ia' [Ha Hia]]. inversion Hia; subst ia.
        assert (align_label_ids vocab label x (a ++ b) = ok (ia' ++ ib)) as ->
          by (apply IH; exists ia', ib; auto).
        reflexivity.
Qed.

Lemma align_length (vocab label : list pystr) (word_ids : list (option nat))
    (prev : option nat) (ids : list Z) :
  align_label_ids vocab label prev word_ids = ok ids ->
  List.length ids = List.length word_ids.
Proof. intros H. exact (proj1 (align_positions _ _ _ _ _ H)). Qed.

(** X14: cutting the mapping short does not change the labels of the
    positions kept: when the alignment of a mapping returns, the alignment
    of any prefix of the mapping returns the corresponding prefix of the
    labels, and the labels of the rest are those of a run that starts with
    the last word index of the prefix as previous index. *)
Theorem alignment_of_prefix (vocab label : list pystr)
    (kept cut : list (option nat)) (ids : list Z) :
  align_label_ids vocab label None (kept ++ cut) = ok ids ->
  align_label_ids vocab label None kept
  = ok (firstn (List.length kept) ids) /\
  align_label_ids vocab label (last kept None) cut
  = ok (skipn (List.length kept) ids).
Proof.
  intros H. apply align_app_iff in H as [ia [ib [-> [Ha Hb]]]].
  pose proof (align_length _ _ _ _ _ Ha) as Hlen.
  rewrite <- Hlen, firstn_app, skipn_app, Nat.sub_diag, firstn_all, skipn_all.
  simpl. rewrite app_nil_r. auto.
Qed.

Lemma alignment_of_prefix_witness :
  align_label_ids [str "O"; str "B-SNP"] [str "B-SNP"; str "O"] None
    [None; Some 0; Some 0]
  = ok (firstn 3 [IGNORE; 1%Z; IGNORE; 0%Z; IGNORE]).
Proof.
  exact (proj1 (alignment_of_prefix [str "O"; str "B-SNP"]
                  [str "B-SNP"; str "O"] [None; Some 0; Some 0]
                  [Some 1; None] [IGNORE; 1%Z; IGNORE; 0%Z; IGNORE] eq_refl)).
Defined.

Lemma align_nones (vocab label : list pystr) (n : nat) (prev : option nat) :
  align_label_ids vocab label prev (repeat None n) = ok (repeat IGNORE n).
Proof.
  revert prev; induction n as [|n IH]; intros prev; [reflexivity|].
  simpl. rewrite IH. reflexivity.
Qed.

Lemma last_nones (n : nat) : last (repeat (@None nat) n) None = None.
Proof.
  induction n as [|n IH]; [reflexivity|].
  simpl. destruct (repeat None n); [reflexivity | exact IH].
Qed.

Lemma align_continuation (vocab label : list pystr) (s n : nat) :
  align_label_ids vocab label (Some s) (repeat (Some s) n)
  = ok (repeat IGNORE n).
Proof.
  induction n as [|n IH]; [reflexivity|].
  simpl. assert (word_idx_eqb (Some s) (Some s) = true) as ->
    by (apply word_idx_eqb_eq; reflexivity).
  simpl. rewrite IH. reflexivity.
Qed.

Lemma last_run (s n : nat) : last (repeat (Some s) n) (Some s) = Some s.
Proof.
  induction n as [|n IH]; [reflexivity|].
  simpl. destruct (repeat (Some s) n); [reflexivity | exact IH].
Qed.

Lemma ok_inj {A : Type} (a b : A) : @ok A a = ok b -> a = b.
Proof. intros H; inversion H; reflexivity. Qed.

Lemma skipn_nth {A : Type} (l : list A) (s : nat) (x : A) :
  nth_error l s = Some x -> skipn s l = x :: skipn (S s) l.
Proof.
  revert l; induction s as [|s IH]; intros [|y l] H; try discriminate.
  - inversion H; reflexivity.
  - simpl in H. rewrite (IH l H) at 1. reflexivity.
Qed.

Lemma filter_ignore_repeat (n : nat) :
  filter (fun g => negb (Z.eqb g IGNORE)) (repeat IGNORE n) = [].
Proof. induction n as [|n IH]; [reflexivity | exact IH]. Qed.

Lemma getitem_int_index (vocab : list pystr) (tag : pystr) (k : nat) :
  index vocab tag = ok k -> getitem_int vocab (Z.of_nat k) = ok tag.
Proof.
  intros H. apply index_ok_nth in H. unfold getitem_int, getitem.
  destruct (Z.leb_spec 0 (Z.of_nat k)) as [_|Hneg]; [|lia].
  rewrite Nat2Z.id, H. reflexivity.
Qed.

(** The labels of the pieces of the words from [s] on, followed by
    [trail] special tokens, decode to the tags of those words. *)
Lemma align_word_pieces (vocab label : list pystr) (trail : nat)
    (pieces : list nat) :
  Forall (fun n => 0 < n) pieces ->
  forall s prev ids,
    (forall w, s <= w -> prev <> Some w) ->
    align_label_ids vocab label prev
      (word_pieces s pieces ++ repeat None trail) = ok ids ->
    Forall2 (fun g tag => getitem_int vocab g = ok tag)
            (filter (fun g => negb (Z.eqb g IGNORE)) ids)
            (firstn (List.length pieces) (skipn s label)).
Proof.
  induction 1 as [|n ps Hn _ IH]; intros s prev ids Hprev Ha.
  - simpl in Ha. rewrite align_nones in Ha. apply ok_inj in Ha. subst ids.
    rewrite filter_ignore_repeat. constructor.
  - destruct n as [|n]; [lia|].
    change (word_pieces s (S n :: ps) ++ repeat None trail)
      with (Some s :: ((repeat (Some s) n ++ word_pieces (S s) ps)
                         ++ repeat None trail)) in Ha.
    rewrite <- app_assoc in Ha.
    apply align_cons in Ha as [x [xs [-> [Hrest Hx]]]].
    assert (word_idx_eqb (Some s) prev = false) as E.
    { destruct (word_idx_eqb (Some s) prev) eqn:E; [|reflexivity].
      apply word_idx_eqb_eq in E. exfalso.
      apply (Hprev s (Nat.le_refl s)). auto. }
    rewrite E in Hx. destruct Hx as [tag [k [Ht [Hk ->]]]].
    apply align_app_iff in Hrest as [ia [ib [-> [Hia Hib]]]].
    rewrite align_continuation in Hia. apply ok_inj in Hia. subst ia.
    rewrite last_run in Hib.
    simpl filter.
    assert (negb (Z.eqb (Z.of_nat k) IGNORE) = true) as ->
      by (apply negb_true_iff, Z.eqb_neq, sentinel_not_index).
    rewrite filter_app, filter_ignore_repeat. simpl app.
    rewrite (skipn_nth label s tag Ht). simpl firstn.
    constructor; [apply getitem_int_index, Hk|].
    apply (IH (S s) (Some s) ib); [|exact Hib].
    intros w Hw Heq. inversion Heq. lia.
Qed.

(** X15: encoding then decoding gives the tags back, one per word.  For
    the layout of a tokenizer - special tokens, then at least one piece for
    each of the first words of the sentence, then special or padding
    tokens - looking up the labels that are not -100 in the vocabulary, as
    the decoding of predictions does, returns the tags of exactly those
    words in order; all of the sentence's tags when no word was cut off. *)
Theorem alignment_decodes_to_tags (vocab label : list pystr)
    (lead trail : nat) (pieces : list nat) (ids : list Z) :
  Forall (fun n => 0 < n) pieces ->
  align_label_ids vocab label None (tokenizer_word_ids lead pieces trail)
  = ok ids ->
  Forall2 (fun g tag => getitem_int vocab g = ok tag)
          (filter (fun g => negb (Z.eqb g IGNORE)) ids)
          (firstn (List.length pieces) label) /\
  (List.length pieces = List.length label ->
   Forall2 (fun g tag => getitem_int vocab g = ok tag)
           (filter (fun g => negb (Z.eqb g IGNORE)) ids) label).
Proof.
  intros Hp Ha. unfold tokenizer_word_ids in Ha.
  apply align_app_iff in Ha as [ia [ib [-> [Hia Hib]]]].
  rewrite align_nones in Hia. apply ok_inj in Hia. subst ia.
  rewrite last_nones in Hib.
  assert (Forall2 (fun g tag => getitem_int vocab g = ok tag)
            (filter (fun g => negb (Z.eqb g IGNORE)) (repeat IGNORE lead ++ ib))
            (firstn (List.length pieces) label)) as H.
  { rewrite filter_app, filter_ignore_repeat. simpl.
    apply (align_word_pieces vocab label trail pieces Hp 0 None ib);
      [discriminate | exact Hib]. }
  split; [exact H|]. intros Hlen. rewrite Hlen, firstn_all in H. exact H.
Qed.

Lemma alignment_decodes_to_tags_witness :
  Forall2 (fun g tag => getitem_int [str "O"; str "B-SNP"] g = ok tag)
          (filter (fun g => negb (Z.eqb g IGNORE))
                  [IGNORE; 1%Z; IGNORE; IGNORE; 0%Z; IGNORE; IGNORE])
          [str "B-SNP"; str "O"].
Proof.
  refine (proj2 (alignment_decodes_to_tags [str "O"; str "B-SNP"]
                   [str "B-SNP"; str "O"] 1 2 [3; 1]
                   [IGNORE; 1%Z; IGNORE; IGNORE; 0%Z; IGNORE; IGNORE]
                   _ eq_refl) eq_refl).
  repeat constructor.
Defined.

Lemma align_batch_ok (vocab : list pystr)
    (batch_word_ids : nat -> list (option nat)) (examples : list (list pystr)) :
  forall i rows,
    align_batch vocab batch_word_ids i examples = ok rows ->
    List.length rows = List.length examples /\
    forall j label, nth_error examples j = Some label ->
      exists row,
        nth_error rows j = Some row /\
        align_label_ids vocab label None (batch_word_ids (i + j)) = ok row.
Proof.
  induction examples as [|l examples IH]; intros i rows H.
  - simpl in H. apply ok_inj in H. subst rows. split; [reflexivity|].
    intros [|j] label Hj; discriminate Hj.
  - simpl in H. apply bind_ok in H as [row [Hrow H]].
    apply bind_ok in H as [others [Hothers H]]. apply ok_inj in H. subst rows.
    destruct (IH _ _ Hothers) as [Hlen Hnth]. split; [simpl; congruence|].
    intros [|j] label Hj; simpl in Hj.
    + inversion Hj; subst l. exists row. rewrite Nat.add_0_r. auto.
    + destruct (Hnth j label Hj) as [r [Hr Ha]]. exists r.
      rewrite Nat.add_succ_r. auto.
Qed.

Lemma align_batch_raise (vocab : list pystr)
    (batch_word_ids : nat -> list (option nat)) (examples : list (list pystr)) :
  forall i j label e,
    nth_error examples j = Some label ->
    align_label_ids vocab label None (batch_word_ids (i + j)) = raise e ->
    (forall j' label', j' < j -> nth_error examples j' = Some label' ->
       exists row,
         align_label_ids vocab label' None (batch_word_ids (i + j')) = ok row) ->
    align_batch vocab batch_word_ids i examples = raise e.
Proof.
  induction examples as [|l examples IH]; intros i j label e Hj He Hbefore.
  - destruct j; discriminate Hj.
  - destruct j as [|j]; simpl in Hj.
    + inversion Hj; subst l. rewrite Nat.add_0_r in He. simpl. rewrite He.
      reflexivity.
    + destruct (Hbefore 0 l (Nat.lt_0_succ j) eq_refl) as [row Hrow].
      rewrite Nat.add_0_r in Hrow. simpl. rewrite Hrow. simpl.
      rewrite (IH (S i) j label e Hj).
      * reflexivity.
      * rewrite Nat.add_succ_comm. exact He.
      * intros j' label' Hlt Hj'.
        destruct (Hbefore (S j') label' (proj1 (Nat.succ_lt_mono j' j) Hlt) Hj')
          as [r Hr].
        exists r. rewrite Nat.add_succ_comm. exact Hr.
Qed.

(** X16: on a batch, [tokenize_and_align_labels] returns one row of labels
    per sentence, in order, each as long as the word-index mapping of its
    sentence and equal to the alignment of that sentence alone; when the
    alignment of some sentence raises, the whole batch raises the error of
    the first such sentence and no row is returned. *)
Theorem tokenize_and_align_labels_batch (vocab : list pystr)
    (batch_word_ids : nat -> list (option nat)) (examples : list (list pystr)) :
  (forall rows,
     tokenize_and_align_labels vocab batch_word_ids examples = ok rows ->
     List.length rows = List.length examples /\
     forall j label, nth_error examples j = Some label ->
       exists row,
         nth_error rows j = Some row /\
         align_label_ids vocab label None (batch_word_ids j) = ok row /\
         List.length row = List.length (batch_word_ids j)) /\
  (forall j label e,
     nth_error examples j = Some label ->
     align_label_ids vocab label None (batch_word_ids j) = raise e ->
     (forall j' label', j' < j -> nth_error examples j' = Some label' ->
        exists row,
          align_label_ids vocab label' None (batch_word_ids j') = ok row) ->
     tokenize_and_align_labels vocab batch_word_ids examples = raise e).
Proof.
  unfold tokenize_and_align_labels. split.
  - intros rows H. destruct (align_batch_ok _ _ _ _ _ H) as [Hlen Hnth].
    split; [exact Hlen|]. intros j label Hj.
    destruct (Hnth j label Hj) as [row [Hr Ha]]. simpl in Ha.
    exists row. split; [exact Hr|]. split; [exact Ha|].
    eapply align_length, Ha.
  - intros j label e Hj He Hbefore.
    apply (align_batch_raise vocab batch_word_ids examples 0 j label e Hj He).
    exact Hbefore.
Qed.

Lemma tokenize_and_align_labels_batch_witness :
  tokenize_and_align_labels [str "O"]
    (fun _ => [None; Some 0; None]) [[str "O"]; [str "B-RS"]; [str "O"]]
  = raise ValueError.
Proof.
  apply (proj2 (tokenize_and_align_labels_batch [str "O"]
                  (fun _ => [None; Some 0; None])
                  [[str "O"]; [str "B-RS"]; [str "O"]])
           1 [str "B-RS"] ValueError eq_refl eq_refl).
  intros j' label' Hlt Hj'. destruct j' as [|j']; [|lia].
  inversion Hj'; subst label'. eexists. reflexivity.
Defined.

Lemma Forall2_nth {A B : Type} (R : A -> B -> Prop) (l : list A)
    (l' : list B) :
  Forall2 R l l' ->
  forall i a b, nth_error l i = Some a -> nth_error l' i = Some b -> R a b.
Proof.
  induction 1 as [|x y l l' Hxy _ IH]; intros [|i] a b Ha Hb;
    try discriminate.
  - inversion Ha; inversion Hb; subst; exact Hxy.
  - exact (IH i a b Ha Hb).
Qed.

(** X17: a sentence of the training corpus can always be aligned.  For
    every training text and every sentence the loader returns for it, the
    cleaned tag list has one tag per token, and with the vocabulary built
    from that corpus the alignment returns - one label per position -
    for every word-index mapping that only refers to words of the
    sentence. *)
Theorem training_sentence_aligns (set_order : list pystr -> list pystr)
    (train_text : pystr) (i : nat) (tokens tags : list pystr)
    (word_ids : list (option nat)) :
  (forall elems, list_of_set elems (set_order elems)) ->
  nth_error (fst (load_and_parse_iob train_text)) i = Some tokens ->
  nth_error (clean_corpus (snd (load_and_parse_iob train_text))) i = Some tags ->
  (forall j w, word_at word_ids j w -> w < List.length tokens) ->
  List.length tags = List.length tokens /\
  exists ids,
    align_label_ids
      (cleaned_unique_labels set_order
         (clean_corpus (snd (load_and_parse_iob train_text))))
      tags None word_ids = ok ids /\
    List.length ids = List.length word_ids.
Proof.
  intros Hset Htok Htag Hrange.
  assert (List.length tags = List.length tokens) as Hlen.
  { unfold clean_corpus in Htag. rewrite nth_error_map in Htag.
    destruct (nth_error (snd (load_and_parse_iob train_text)) i)
      as [raw|] eqn:Eraw; [|discriminate].
    simpl in Htag. inversion Htag; subst tags.
    unfold clean_labels. rewrite length_map.
    pose proof (parse_lines_parallel (split NEWLINE train_text)) as Hp.
    destruct (Forall2_nth _ _ _ Hp i tokens raw Htok Eraw) as [Hl _].
    symmetry. exact Hl. }
  split; [exact Hlen|].
  destruct (align_succeeds
              (cleaned_unique_labels set_order
                 (clean_corpus (snd (load_and_parse_iob train_text))))
              tags word_ids) with (prev := @None nat) as [ids Hids].
  - intros j w Hw. specialize (Hrange j w Hw).
    destruct (nth_error tags w) as [tag|] eqn:E.
    + exists tag. split; [reflexivity|].
      apply vocabulary_In; [exact Hset|]. exists tags. split.
      * eapply nth_error_In, Htag.
      * eapply nth_error_In, E.
    + apply nth_error_None in E. lia.
  - exists ids. split; [exact Hids | eapply align_length, Hids].
Qed.

Lemma training_sentence_aligns_witness :
  exists ids,
    align_label_ids
      (cleaned_unique_labels first_seen
         (clean_corpus
            (snd (load_and_parse_iob
                    (unlines [str "Arg123,B-Gene"; str "His,Foo"])))))
      [str "B-Gene"; str "O"] None [None; Some 0; Some 0; Some 1; None]
    = ok ids /\
    List.length ids = 5.
Proof.
  refine (proj2 (training_sentence_aligns first_seen
                   (unlines [str "Arg123,B-Gene"; str "His,Foo"]) 0
                   [str "Arg123"; str "His"] [str "B-Gene"; str "O"]
                   [None; Some 0; Some 0; Some 1; None]
                   first_seen_list_of_set eq_refl eq_refl _)).
  intros j w H. unfold word_at in H.
  repeat (destruct j as [|j]; simpl in H;
          [try discriminate H; try (inversion H; subst; simpl; lia)|]).
  destruct j; discriminate H.
Defined.

(** ** Decoding of predictions: further properties *)

Lemma getitem_int_In {A : Type} (l : list A) (k : Z) (a : A) :
  getitem_int l k = ok a -> In a l.
Proof.
  unfold getitem_int, getitem.
  destruct (0 <=? k)%Z.
  - destruct (nth_error l (Z.to_nat k)) eqn:E; [|discriminate].
    intros H; apply ok_inj in H; subst. eapply nth_error_In, E.
  - destruct (- Z.of_nat (List.length l) <=? k)%Z; [|discriminate].
    destruct (nth_error l (Z.to_nat (Z.of_nat (List.length l) + k))) eqn:E;
      [|discriminate].
    intros H; apply ok_inj in H; subst. eapply nth_error_In, E.
Qed.

Lemma getitem_int_raise {A : Type} (l : list A) (k : Z) (e : exn) :
  getitem_int l k = raise e -> e = IndexError.
Proof.
  unfold getitem_int, getitem.
  destruct (0 <=? k)%Z.
  - destruct (nth_error l (Z.to_nat k)); [discriminate|].
    intros H; inversion H; reflexivity.
  - destruct (- Z.of_nat (List.length l) <=? k)%Z.
    + destruct (nth_error l (Z.to_nat (Z.of_nat (List.length l) + k)));
        [discriminate|].
      intros H; inversion H; reflexivity.
    + intros H; inversion H; reflexivity.
Qed.

Lemma getitem2_raise {A : Type} (a : ndarray2 A) (i j : nat) (e : exn) :
  getitem2 a i j = raise e -> e = IndexError.
Proof.
  unfold getitem2. destruct (Nat.ltb i (rows a) && Nat.ltb j (cols a));
    [discriminate|]. intros H; inversion H; reflexivity.
Qed.

Lemma bind_raise {A B : Type} (m : result A) (k : A -> result B) (e : exn) :
  bind m k = raise e ->
  m = raise e \/ exists a, m = ok a /\ k a = raise e.
Proof.
  destruct m as [e'|a]; simpl.
  - intros H; inversion H. left; reflexivity.
  - intros H. right. exists a. auto.
Qed.

Lemma decode_positions_shape (vocab : list pystr) (preds : ndarray2 nat)
    (label_ids : ndarray2 Z) (i : nat) (js : list nat) :
  forall p o, decode_positions vocab preds label_ids i js = ok (p, o) ->
  List.length p = List.length o /\
  List.length o
  = List.length (filter (fun g => negb (Z.eqb g IGNORE))
                        (map (item2 label_ids i) js)) /\
  Forall (fun s => In s vocab) p /\ Forall (fun s => In s vocab) o.
Proof.
  induction js as [|j js IH]; intros p o Hd.
  - simpl in Hd. inversion Hd. simpl. auto.
  - simpl in Hd. apply bind_ok in Hd as [gold [Hg Hd]].
    apply getitem2_ok in Hg as [_ [_ ->]]. simpl.
    destruct (Z.eqb (item2 label_ids i j) IGNORE) eqn:E; simpl in *.
    + apply IH; assumption.
    + apply bind_ok in Hd as [out_label [Ho Hd]].
      apply bind_ok in Hd as [pj [Hp Hd]].
      apply bind_ok in Hd as [pred [Hs Hd]].
      apply bind_ok in Hd as [[p' o'] [Hrest Hd]].
      inversion Hd; subst p o. simpl.
      destruct (IH p' o' Hrest) as [H1 [H2 [H3 H4]]].
      repeat split; try congruence.
      * constructor; [eapply getitem_int_In, Hs | exact H3].
      * constructor; [eapply getitem_int_In, Ho | exact H4].
Qed.

Lemma decode_sequences_shape (vocab : list pystr) (preds : ndarray2 nat)
    (label_ids : ndarray2 Z) (seq_len : nat) (batch : list nat) :
  forall P O,
    decode_sequences vocab preds label_ids seq_len batch = ok (P, O) ->
    Forall2 (fun p o => List.length p = List.length o) P O /\
    Forall2 (fun i o =>
               List.length o = List.length (gold_ids label_ids seq_len i))
            batch O /\
    Forall (Forall (fun s => In s vocab)) P /\
    Forall (Forall (fun s => In s vocab)) O.
Proof.
  induction batch as [|i batch IH]; intros P O Hd.
  - simpl in Hd. inversion Hd. repeat split; constructor.
  - simpl in Hd. apply bind_ok in Hd as [[p o] [Hrow Hd]].
    apply bind_ok in Hd as [[P' O'] [Hrest Hd]].
    inversion Hd; subst P O. simpl.
    destruct (decode_positions_shape _ _ _ _ _ _ _ Hrow) as [H1 [H2 [H3 H4]]].
    destruct (IH P' O' Hrest) as [G1 [G2 [G3 G4]]].
    repeat split; constructor; assumption.
Qed.

Lemma decode_positions_raise (vocab : list pystr) (preds : ndarray2 nat)
    (label_ids : ndarray2 Z) (i : nat) (js : list nat) (e : exn) :
  decode_positions vocab preds label_ids i js = raise e -> e = IndexError.
Proof.
  induction js as [|j js IH]; simpl; [discriminate|]. intros H.
  apply bind_raise in H as [H|[gold [Hg H]]]; [eapply getitem2_raise, H|].
  destruct (negb (Z.eqb gold IGNORE)); [|exact (IH H)].
  apply bind_raise in H as [H|[o [_ H]]]; [eapply getitem_int_raise, H|].
  apply bind_raise in H as [H|[p [_ H]]]; [eapply getitem2_raise, H|].
  apply bind_raise in H as [H|[s [_ H]]]; [eapply getitem_int_raise, H|].
  apply bind_raise in H as [H|[r [_ H]]]; [exact (IH H) | discriminate H].
Qed.

Lemma decode_sequences_raise (vocab : list pystr) (preds : ndarray2 nat)
    (label_ids : ndarray2 Z) (seq_len : nat) (batch : list nat) (e : exn) :
  decode_sequences vocab preds label_ids seq_len batch = raise e ->
  e = IndexError.
Proof.
  induction batch as [|i batch IH]; simpl; [discriminate|]. intros H.
  apply bind_raise in H as [H|[row [_ H]]];
    [eapply decode_positions_raise, H|].
  apply bind_raise in H as [H|[r [_ H]]]; [exact (IH H) | discriminate H].
Qed.

Lemma decode_positions_all_ignore (vocab : list pystr) (preds : ndarray2 nat)
    (label_ids : ndarray2 Z) (i : nat) (js : list nat) :
  i < rows label_ids ->
  (forall j, In j js -> j < cols label_ids /\ item2 label_ids i j = IGNORE) ->
  decode_positions vocab preds label_ids i js = ok ([], []).
Proof.
  intros Hi. induction js as [|j js IH]; intros H; [reflexivity|].
  destruct (H j (or_introl eq_refl)) as [Hj Hg]. simpl.
  rewrite (getitem2_in_range label_ids i j Hi Hj). simpl. rewrite Hg. simpl.
  apply IH. intros j' Hin. apply H. right. exact Hin.
Qed.

Lemma decode_sequences_all_ignore (vocab : list pystr) (preds : ndarray2 nat)
    (label_ids : ndarray2 Z) (seq_len : nat) (batch : list nat) :
  seq_len <= cols label_ids ->
  (forall i, In i batch ->
     i < rows label_ids /\
     forall j, j < seq_len -> item2 label_ids i j = IGNORE) ->
  decode_sequences vocab preds label_ids seq_len batch
  = ok (repeat [] (List.length batch), repeat [] (List.length batch)).
Proof.
  intros Hc. induction batch as [|i batch IH]; intros H; [reflexivity|].
  destruct (H i (or_introl eq_refl)) as [Hi Hg]. simpl.
  rewrite (decode_positions_all_ignore vocab preds label_ids i (seq 0 seq_len) Hi).
  - simpl. rewrite IH by (intros i' Hin; apply H; right; exact Hin).
    reflexivity.
  - intros j Hj. apply in_seq in Hj. split; [lia | apply Hg; lia].
Qed.

Lemma decode_positions_total (vocab : list pystr) (preds : ndarray2 nat)
    (label_ids : ndarray2 Z) (i : nat) (js : list nat) :
  i < rows preds -> i < rows label_ids ->
  (forall j, In j js ->
     j < cols preds /\ j < cols label_ids /\
     (item2 label_ids i j <> IGNORE ->
      (0 <= item2 label_ids i j < Z.of_nat (List.length vocab))%Z /\
      item2 preds i j < List.length vocab)) ->
  exists r, decode_positions vocab preds label_ids i js = ok r.
Proof.
  intros Hip Hil. induction js as [|j js IH]; intros H.
  - eexists; reflexivity.
  - destruct (IH (fun j' Hin => H j' (or_intror Hin))) as [r Hr].
    destruct (H j (or_introl eq_refl)) as [Hjp [Hjl Hg]].
    simpl. rewrite (getitem2_in_range label_ids i j Hil Hjl). simpl.
    destruct (Z.eqb (item2 label_ids i j) IGNORE) eqn:E; simpl;
      [exists r; exact Hr|].
    apply Z.eqb_neq in E. destruct (Hg E) as [Hgold Hpred].
    destruct (getitem_int_in_range vocab (item2 label_ids i j) Hgold)
      as [o Ho].
    destruct (getitem_int_in_range vocab (Z.of_nat (item2 preds i j)))
      as [s Hs]; [lia|].
    rewrite Ho. simpl. rewrite (getitem2_in_range preds i j Hip Hjp). simpl.
    rewrite Hs. simpl. rewrite Hr. simpl. eexists; reflexivity.
Qed.

Lemma decode_sequences_total (vocab : list pystr) (preds : ndarray2 nat)
    (label_ids : ndarray2 Z) (seq_len : nat) (batch : list nat) :
  seq_len <= cols preds -> seq_len <= cols label_ids ->
  (forall i, In i batch -> i < rows preds /\ i < rows label_ids) ->
  (forall i j, In i batch -> j < seq_len -> item2 label_ids i j <> IGNORE ->
     (0 <= item2 label_ids i j < Z.of_nat (List.length vocab))%Z /\
     item2 preds i j < List.length vocab) ->
  exists r, decode_sequences vocab preds label_ids seq_len batch = ok r.
Proof.
  intros Hcp Hcl. induction batch as [|i batch IH]; intros Hrows H.
  - eexists; reflexivity.
  - destruct (IH (fun i' Hin => Hrows i' (or_intror Hin))
                 (fun i' j Hin => H i' j (or_intror Hin))) as [r Hr].
    destruct (Hrows i (or_introl eq_refl)) as [Hip Hil].
    destruct (decode_positions_total vocab preds label_ids i (seq 0 seq_len)
                Hip Hil) as [row Hrow].
    + intros j Hj. apply in_seq in Hj. split; [lia|]. split; [lia|].
      apply H; [left; reflexivity | lia].
    + simpl. rewrite Hrow. simpl. rewrite Hr. simpl. eexists; reflexivity.
Qed.

Section Decoding.

Variable score : Type.
Variable score_le : score -> score -> bool.
Variable score_isnan : score -> bool.

Lemma argmax_scan_bound (rest : list score) :
  forall mp max_ind i, max_ind < i ->
    argmax_scan score score_le score_isnan mp max_ind i rest
    < i + List.length rest.
Proof.
  induction rest as [|x rest IH]; intros mp max_ind i H; simpl.
  - destruct (score_isnan mp); lia.
  - destruct (score_isnan mp); [lia|].
    destruct (score_le x mp).
    + specialize (IH mp max_ind (S i)). lia.
    + specialize (IH x i (S i)). lia.
Qed.

Lemma argmax_bound (row : list score) (k : nat) :
  argmax score_le score_isnan row = ok k -> k < List.length row.
Proof.
  destruct row as [|x rest]; simpl; [discriminate|].
  intros H. apply ok_inj in H. subst k.
  pose proof (argmax_scan_bound rest x 0 1). lia.
Qed.

Lemma argmax_last_bound (predictions : ndarray3 score) (preds : ndarray2 nat) :
  argmax_last score_le score_isnan predictions = ok preds ->
  forall i j, item2 preds i j < dim2 predictions.
Proof.
  unfold argmax_last.
  destruct (Nat.eqb (dim2 predictions) 0) eqn:E; [discriminate|].
  apply Nat.eqb_neq in E. intros H. apply ok_inj in H. subst preds.
  intros i j. simpl.
  destruct (argmax score_le score_isnan (scores_at predictions i j))
    as [e|k] eqn:Ek; [lia|].
  apply argmax_bound in Ek. unfold scores_at in Ek.
  rewrite length_map, length_seq in Ek. exact Ek.
Qed.

(** X18: whatever the scores, when [align_predictions] returns, both
    lists have one row per sequence of the batch, the predicted and the
    gold row of a sequence have the same length - the number of gold labels
    of that sequence other than -100 - and every string in either list is
    an entry of the vocabulary. *)
Theorem align_predictions_shape (cleaned_unique_labels : list pystr)
    (predictions : ndarray3 score) (label_ids : ndarray2 Z)
    (preds_list out_label_list : list (list pystr)) :
  align_predictions score_le score_isnan cleaned_unique_labels
    predictions label_ids = ok (preds_list, out_label_list) ->
  List.length preds_list = dim0 predictions /\
  List.length out_label_list = dim0 predictions /\
  Forall2 (fun p o => List.length p = List.length o)
          preds_list out_label_list /\
  Forall2 (fun i o => List.length o
                      = List.length (gold_ids label_ids (dim1 predictions) i))
          (seq 0 (dim0 predictions)) out_label_list /\
  Forall (Forall (fun s => In s cleaned_unique_labels)) preds_list /\
  Forall (Forall (fun s => In s cleaned_unique_labels)) out_label_list.
Proof.
  intros H. unfold align_predictions in H.
  apply bind_ok in H as [preds [Hp H]].
  destruct (argmax_last_ok _ _ _ _ _ Hp) as [Hr [Hc _]].
  rewrite Hr, Hc in H.
  destruct (decode_sequences_shape _ _ _ _ _ _ _ H) as [H1 [H2 [H3 H4]]].
  pose proof (Forall2_length H2) as L2. rewrite length_seq in L2.
  pose proof (Forall2_length H1) as L1.
  repeat split; try assumption; congruence.
Qed.

(** X19: [align_predictions] returns for any scores when there is at
    least one class and no more classes than vocabulary entries, the gold
    array covers the shape of the predictions, and every gold label is -100
    or an index into the vocabulary - as holds for a model created with as
    many classes as the vocabulary has entries and gold labels produced by
    the alignment. *)
Theorem align_predictions_returns (cleaned_unique_labels : list pystr)
    (predictions : ndarray3 score) (label_ids : ndarray2 Z) :
  0 < dim2 predictions ->
  dim2 predictions <= List.length cleaned_unique_labels ->
  dim0 predictions <= rows label_ids ->
  dim1 predictions <= cols label_ids ->
  (forall i j, i < dim0 predictions -> j < dim1 predictions ->
     valid_label_id cleaned_unique_labels (item2 label_ids i j)) ->
  exists preds_list out_label_list,
    align_predictions score_le score_isnan cleaned_unique_labels
      predictions label_ids = ok (preds_list, out_label_list).
Proof.
  intros Hdim Hcls Hrows Hcols Hvalid.
  destruct (argmax_last_returns score score_le score_isnan predictions Hdim)
    as [preds Hp].
  destruct (argmax_last_ok _ _ _ _ _ Hp) as [Hr [Hc _]].
  pose proof (argmax_last_bound _ _ Hp) as Hb.
  destruct (decode_sequences_total cleaned_unique_labels preds label_ids
              (cols preds) (seq 0 (rows preds))) as [[P O] Hd].
  - lia.
  - lia.
  - intros i Hi. apply in_seq in Hi. lia.
  - intros i j Hi Hj Hg. apply in_seq in Hi.
    destruct (Hvalid i j ltac:(lia) ltac:(lia)) as [Hx|Hx]; [contradiction|].
    split; [exact Hx|]. specialize (Hb i j). lia.
  - exists P, O. unfold align_predictions. rewrite Hp. simpl. exact Hd.
Qed.

(** X20: how [align_predictions] fails and when it cannot.  With no class
    at all it raises ValueError; with at least one class the only error it
    can raise is IndexError; and when the gold array covers the shape of
    the predictions and holds only -100, it returns one empty row per
    sequence in both lists, whatever the vocabulary. *)
Theorem align_predictions_errors (cleaned_unique_labels : list pystr)
    (predictions : ndarray3 score) (label_ids : ndarray2 Z) :
  (dim2 predictions = 0 ->
   align_predictions score_le score_isnan cleaned_unique_labels
     predictions label_ids = raise ValueError) /\
  (0 < dim2 predictions ->
   forall e,
     align_predictions score_le score_isnan cleaned_unique_labels
       predictions label_ids = raise e -> e = IndexError) /\
  (0 < dim2 predictions ->
   dim0 predictions <= rows label_ids ->
   dim1 predictions <= cols label_ids ->
   (forall i j, i < dim0 predictions -> j < dim1 predictions ->
      item2 label_ids i j = IGNORE) ->
   align_predictions score_le score_isnan cleaned_unique_labels
     predictions label_ids
   = ok (repeat [] (dim0 predictions), repeat [] (dim0 predictions))).
Proof.
  split; [|split].
  - intros H. unfold align_predictions, argmax_last. rewrite H. reflexivity.
  - intros Hdim e H.
    destruct (argmax_last_returns score score_le score_isnan predictions Hdim)
      as [preds Hp].
    unfold align_predictions in H. rewrite Hp in H. simpl in H.
    eapply decode_sequences_raise, H.
  - intros Hdim Hrows Hcols Hall.
    destruct (argmax_last_returns score score_le score_isnan predictions Hdim)
      as [preds Hp].
    destruct (argmax_last_ok _ _ _ _ _ Hp) as [Hr [Hc _]].
    unfold align_predictions. rewrite Hp. simpl.
    rewrite decode_sequences_all_ignore.
    + rewrite length_seq, Hr. reflexivity.
    + lia.
    + intros i Hi. apply in_seq in Hi. split; [lia|].
      intros j Hj. apply Hall; lia.
Qed.

End Decoding.

Lemma align_predictions_shape_witness :
  List.length [[str "B-SNP"; str "O"]] = dim0 sample_predictions /\
  Forall2 (fun p o => List.length p = List.length o)
          [[str "B-SNP"; str "O"]] [[str "B-SNP"; str "O"]].
Proof.
  destruct (align_predictions_shape Z Z.leb (fun _ => false)
              [str "O"; str "B-SNP"] sample_predictions sample_label_ids
              [[str "B-SNP"; str "O"]] [[str "B-SNP"; str "O"]] eq_refl)
    as [H1 [_ [H3 _]]].
  split; [exact H1 | exact H3].
Defined.

Lemma align_predictions_returns_witness :
  exists preds_list out_label_list,
    align_predictions Z.leb (fun _ => false) [str "O"; str "B-SNP"]
      sample_predictions sample_label_ids = ok (preds_list, out_label_list).
Proof.
  apply (align_predictions_returns Z Z.leb (fun _ => false)
           [str "O"; str "B-SNP"] sample_predictions sample_label_ids).
  - simpl. lia.
  - simpl. lia.
  - simpl. lia.
  - simpl. lia.
  - intros i j Hi Hj. simpl in Hi, Hj.
    destruct i as [|i]; [|lia].
    destruct j as [|[|[|j]]]; [| | |lia].
    + left. reflexivity.
    + right. simpl. lia.
    + right. simpl. lia.
Defined.

Lemma align_predictions_errors_witness :
  align_predictions Z.leb (fun _ => false) []
    sample_predictions padding_label_ids
  = ok (repeat [] (dim0 sample_predictions),
        repeat [] (dim0 sample_predictions)) /\
  align_predictions Z.leb (fun _ => false) [str "O"]
    (array3_of_lists 0%Z 1 3 0 []) sample_label_ids = raise ValueError.
Proof.
  split.
  - apply (proj2 (proj2 (align_predictions_errors Z Z.leb (fun _ => false)
                           [] sample_predictions padding_label_ids))).
    + simpl. lia.
    + simpl. lia.
    + simpl. lia.
    + intros i j Hi Hj. simpl in Hi, Hj.
      destruct i as [|i]; [|lia].
      destruct j as [|[|[|j]]]; [reflexivity | reflexivity | reflexivity | lia].
  - apply (proj1 (align_predictions_errors Z Z.leb (fun _ => false)
                    [str "O"] (array3_of_lists 0%Z 1 3 0 []) sample_label_ids)).
    reflexivity.
Defined.

(** ** One sweep trial: further properties *)

Section TrialFailures.

Variable score : Type.
Variable score_le : score -> score -> bool.
Variable score_isnan : score -> bool.

Lemma try_block_trace (c : collaborators score) (vocab : list pystr) :
  exists n,
    1 <= n /\
    fst (try_block score_le score_isnan c vocab)
    = firstn n [TrainerTrain; TrainerEvaluate; TrainerPredict; Report].
Proof.
  unfold try_block, call, call_for, andthen, lift.
  destruct (setup_and_train c); [exists 1; auto|].
  destruct (evaluate_and_log c); [exists 2; auto|].
  destruct (trainer_predict c) as [e|[predictions label_ids]];
    [exists 3; auto|]. simpl.
  destruct (align_predictions score_le score_isnan vocab predictions label_ids)
    as [e|[P O]]; [exists 3; auto|]. simpl.
  exists 4. destruct (report_and_log c O P); auto.
Qed.

Lemma try_block_no_alert (c : collaborators score) (vocab : list pystr) :
  filter is_alert (fst (try_block score_le score_isnan c vocab)) = [].
Proof.
  destruct (try_block_trace c vocab) as [n [_ ->]].
  destruct n as [|[|[|[|[|n]]]]]; reflexivity.
Qed.

(** X21: failures of the tracking calls themselves are not contained.
    When [wandb.init] raises, the exception leaves [train] and nothing else
    is called, not even [run.finish].  After a caught exception, when the
    logging call raises, no alert is sent, and when the alert call raises,
    its exception leaves [train]; in both cases the run is still finished
    first.  And when [run.finish] raises, that exception leaves [train]
    whatever happened before. *)
Theorem tracking_failures_propagate (c : collaborators score)
    (vocab : list pystr) :
  (forall e, wandb_init c = Some e ->
     train score_le score_isnan c vocab = ([WandbInit], inl e)) /\
  (forall t e e1,
     wandb_init c = None -> run_finish c = None ->
     try_block score_le score_isnan c vocab = (t, inl e) ->
     exc_is_Exception e = true ->
     logger_error c (error_message e) = Some e1 ->
     train score_le score_isnan c vocab
     = (WandbInit :: t ++ [LoggerError (error_message e); RunFinish], inl e1)) /\
  (forall t e e2,
     wandb_init c = None -> run_finish c = None ->
     try_block score_le score_isnan c vocab = (t, inl e) ->
     exc_is_Exception e = true ->
     logger_error c (error_message e) = None ->
     wandb_alert c alert_title (alert_text e) = Some e2 ->
     train score_le score_isnan c vocab
     = (WandbInit :: t ++
          [LoggerError (error_message e);
           WandbAlert alert_title (alert_text e); RunFinish],
        inl e2)) /\
  (forall e3,
     wandb_init c = None -> run_finish c = Some e3 ->
     snd (train score_le score_isnan c vocab) = inl e3).
Proof.
  split; [|split; [|split]].
  - intros e H. unfold train. rewrite H. reflexivity.
  - intros t e e1 Hinit Hfin Hb He Hlog.
    rewrite (train_unfold score score_le score_isnan c vocab Hinit).
    rewrite Hb, Hfin. unfold try_except_finally. rewrite He.
    unfold except_clause. rewrite Hlog. simpl. rewrite <- app_assoc.
    reflexivity.
  - intros t e e2 Hinit Hfin Hb He Hlog Halert.
    rewrite (train_unfold score score_le score_isnan c vocab Hinit).
    rewrite Hb, Hfin. unfold try_except_finally. rewrite He.
    unfold except_clause. rewrite Hlog, Halert. simpl. rewrite <- app_assoc.
    reflexivity.
  - intros e3 Hinit Hfin.
    rewrite (train_unfold score score_le score_isnan c vocab Hinit). simpl.
    rewrite Hfin. unfold try_except_finally, call.
    destruct (try_block score_le score_isnan c vocab) as [t [e|a]].
    + destruct (exc_is_Exception e); [|reflexivity].
      destruct (except_clause c e); reflexivity.
    + reflexivity.
Qed.

(** X22: the steps of a trial happen in the order train, evaluate,
    predict, decode, report, and the [try] block stops at the first one
    that raises: its trace is exactly the steps up to and including the
    failing one, nothing after it is called, and it ends with that step's
    exception; the report is produced only when the decoding returned.
    [train] sends at most one alert per trial, and none when the [try]
    block returns. *)
Theorem trial_steps_and_alerts (c : collaborators score) (vocab : list pystr) :
  (forall e, setup_and_train c = Some e ->
     try_block score_le score_isnan c vocab = ([TrainerTrain], inl e)) /\
  (forall e, setup_and_train c = None -> evaluate_and_log c = Some e ->
     try_block score_le score_isnan c vocab
     = ([TrainerTrain; TrainerEvaluate], inl e)) /\
  (forall e, setup_and_train c = None -> evaluate_and_log c = None ->
     trainer_predict c = inl e ->
     try_block score_le score_isnan c vocab
     = ([TrainerTrain; TrainerEvaluate; TrainerPredict], inl e)) /\
  (forall predictions label_ids x,
     setup_and_train c = None -> evaluate_and_log c = None ->
     trainer_predict c = inr (predictions, label_ids) ->
     align_predictions score_le score_isnan vocab predictions label_ids
     = raise x ->
     try_block score_le score_isnan c vocab
     = ([TrainerTrain; TrainerEvaluate; TrainerPredict],
        inl (exc_of_exn (error_text c) x))) /\
  (forall predictions label_ids preds_list out_label_list,
     setup_and_train c = None -> evaluate_and_log c = None ->
     trainer_predict c = inr (predictions, label_ids) ->
     align_predictions score_le score_isnan vocab predictions label_ids
     = ok (preds_list, out_label_list) ->
     try_block score_le score_isnan c vocab
     = ([TrainerTrain; TrainerEvaluate; TrainerPredict; Report],
        match report_and_log c out_label_list preds_list with
        | Some e => inl e
        | None => inr tt
        end)) /\
  List.length (filter is_alert (fst (train score_le score_isnan c vocab))) <= 1 /\
  (forall t, try_block score_le score_isnan c vocab = (t, inr tt) ->
     filter is_alert (fst (train score_le score_isnan c vocab)) = []).
Proof.
  split; [|split; [|split; [|split; [|split; [|split]]]]].
  - intros e H. unfold try_block. rewrite H. reflexivity.
  - intros e H1 H2. unfold try_block. rewrite H1, H2. reflexivity.
  - intros e H1 H2 H3. unfold try_block. rewrite H1, H2, H3. reflexivity.
  - intros predictions label_ids x H1 H2 H3 H4. unfold try_block.
    rewrite H1, H2, H3. simpl. rewrite H4. reflexivity.
  - intros predictions label_ids P O H1 H2 H3 H4. unfold try_block.
    rewrite H1, H2, H3. simpl. rewrite H4. simpl.
    destruct (report_and_log c O P); reflexivity.
  - pose proof (try_block_no_alert c vocab) as Hb.
    unfold train, call, andthen.
    destruct (wandb_init c); [simpl; lia|].
    unfold try_except_finally, call.
    destruct (try_block score_le score_isnan c vocab) as [t [e|a]];
      simpl in Hb.
    + destruct (exc_is_Exception e).
      * unfold except_clause, call, andthen.
        destruct (logger_error c (error_message e));
          destruct (wandb_alert c alert_title (alert_text e));
          destruct (run_finish c); simpl;
          rewrite ?filter_app, ?Hb; simpl; lia.
      * destruct (run_finish c); simpl; rewrite ?filter_app, ?Hb; simpl; lia.
    + destruct (run_finish c); simpl; rewrite ?filter_app, ?Hb; simpl; lia.
  - intros t Ht. pose proof (try_block_no_alert c vocab) as Hb.
    rewrite Ht in Hb. simpl in Hb.
    unfold train, call, andthen.
    destruct (wandb_init c); [reflexivity|].
    unfold try_except_finally. rewrite Ht.
    destruct (run_finish c); simpl; rewrite filter_app, Hb; reflexivity.
Qed.

(** X23: an error of the decoding is handled like any other error of the
    trial.  When training, evaluation and prediction return but
    [align_predictions] raises on the predicted arrays, no report is
    produced; [train] logs the error and sends the alert, both carrying the
    text of that error, finishes the run and returns normally (the
    tracking calls returning normally). *)
Theorem decoding_error_is_reported (c : collaborators score)
    (vocab : list pystr) (predictions : ndarray3 score)
    (label_ids : ndarray2 Z) (e : exn) :
  wandb_init c = None -> setup_and_train c = None ->
  evaluate_and_log c = None ->
  trainer_predict c = inr (predictions, label_ids) ->
  align_predictions score_le score_isnan vocab predictions label_ids = raise e ->
  (forall m, logger_error c m = None) ->
  (forall title text, wandb_alert c title text = None) ->
  run_finish c = None ->
  train score_le score_isnan c vocab
  = ([WandbInit; TrainerTrain; TrainerEvaluate; TrainerPredict;
      LoggerError
        (str "Error during training or evaluation: " ++ error_text c e);
      WandbAlert (str "Training or Evaluation Error")
        (str "An error occurred during training or evaluation: "
         ++ error_text c e);
      RunFinish],
     inr tt).
Proof.
  intros Hinit Htrain Heval Hpred Hdec Hlog Halert Hfin.
  rewrite (train_unfold score score_le score_isnan c vocab Hinit).
  assert (try_block score_le score_isnan c vocab
          = ([TrainerTrain; TrainerEvaluate; TrainerPredict],
             inl (exc_of_exn (error_text c) e))) as Hb.
  { unfold try_block. rewrite Htrain, Heval, Hpred. simpl. rewrite Hdec.
    reflexivity. }
  rewrite Hb, Hfin. unfold try_except_finally, exc_of_exn. simpl.
  unfold except_clause. rewrite Hlog, Halert. reflexivity.
Qed.

End TrialFailures.

Lemma tracking_failures_propagate_witness :
  train Z.leb (fun _ => false) trial_with_failing_alert [str "O"; str "B-SNP"]
  = (WandbInit :: [TrainerTrain] ++
       [LoggerError (error_message out_of_memory);
        WandbAlert alert_title (alert_text out_of_memory); RunFinish],
     inl connection_error).
Proof.
  exact (proj1 (proj2 (proj2
           (tracking_failures_propagate Z Z.leb (fun _ => false)
              trial_with_failing_alert [str "O"; str "B-SNP"])))
           [TrainerTrain] out_of_memory connection_error
           eq_refl eq_refl eq_refl eq_refl eq_refl eq_refl).
Defined.

Lemma trial_steps_and_alerts_witness :
  try_block Z.leb (fun _ => false)
    (trial_with_evaluation (Some out_of_memory)) [str "O"; str "B-SNP"]
  = ([TrainerTrain; TrainerEvaluate], inl out_of_memory) /\
  filter is_alert
    (fst (train Z.leb (fun _ => false) (trial_with_training None)
            [str "O"; str "B-SNP"])) = [].
Proof.
  split.
  - exact (proj1 (proj2
             (trial_steps_and_alerts Z Z.leb (fun _ => false)
                (trial_with_evaluation (Some out_of_memory))
                [str "O"; str "B-SNP"]))
             out_of_memory eq_refl eq_refl).
  - exact (proj2 (proj2 (proj2 (proj2 (proj2 (proj2
             (trial_steps_and_alerts Z Z.leb (fun _ => false)
                (trial_with_training None) [str "O"; str "B-SNP"]))))))
             [TrainerTrain; TrainerEvaluate; TrainerPredict; Report] eq_refl).
Defined.

Lemma decoding_error_is_reported_witness :
  train Z.leb (fun _ => false) trial_with_bad_gold [str "O"]
  = ([WandbInit; TrainerTrain; TrainerEvaluate; TrainerPredict;
      LoggerError
        (str "Error during training or evaluation: list index out of range");
      WandbAlert (str "Training or Evaluation Error")
        (str "An error occurred during training or evaluation: list index out of range");
      RunFinish],
     inr tt).
Proof.
  exact (decoding_error_is_reported Z Z.leb (fun _ => false)
           trial_with_bad_gold [str "O"]
           (array3_of_lists 0%Z 1 1 1 [[[0]]]%Z)
           (array2_of_lists 0%Z 1 1 [[7]]%Z) IndexError
           eq_refl eq_refl eq_refl eq_refl eq_refl
           (fun _ => eq_refl) (fun _ _ => eq_refl) eq_refl).
Defined.

(** ** The tracking credential *)

Lemma readline_first_line (content : pystr) :
  exists b,
    readline content = hd [] (split NEWLINE content) ++ b /\
    all_space b = true.
Proof.
  induction content as [|c rest [b [IH Hb]]]; simpl.
  - exists []. auto.
  - destruct (N.eqb c NEWLINE) eqn:E.
    + apply N.eqb_eq in E. subst c. exists [NEWLINE]. auto.
    + destruct (split NEWLINE rest) as [|p ps] eqn:Es;
        [exfalso; exact (split_not_nil _ _ Es)|].
      simpl in *. exists b. rewrite IH. auto.
Qed.

Lemma first_translated_line (raw : pystr) :
  hd [] (split NEWLINE (universal_newlines raw)) = before_line_end raw.
Proof.
  induction raw as [|c rest IH]; [reflexivity|].
  simpl. destruct (N.eqb c CR) eqn:Ec; simpl; [reflexivity|].
  destruct (N.eqb c NEWLINE) eqn:En; simpl; [reflexivity|].
  destruct (split NEWLINE (universal_newlines rest)) as [|p ps] eqn:Es;
    [exfalso; exact (split_not_nil _ _ Es)|].
  simpl in *. rewrite IH. reflexivity.
Qed.

Lemma before_line_end_clean (raw : pystr) :
  ~ In NEWLINE (before_line_end raw) /\ ~ In CR (before_line_end raw).
Proof.
  induction raw as [|c rest [IH1 IH2]]; simpl; [tauto|].
  destruct (N.eqb c CR) eqn:Ec; simpl; [tauto|].
  destruct (N.eqb c NEWLINE) eqn:En; simpl; [tauto|].
  apply N.eqb_neq in Ec, En. split; intros [H|H]; auto.
Qed.

(** X24: the API key is what the key file holds before its first line
    end - a line feed, a carriage return, or both - without trailing
    whitespace: it contains no line feed and no carriage return, ends in no
    whitespace, keeps any leading whitespace of the line, and the rest of
    the file is ignored. *)
Theorem api_key_is_first_line (raw : pystr) :
  WANDB_API_KEY raw = rstrip (before_line_end raw) /\
  ~ In NEWLINE (WANDB_API_KEY raw) /\
  ~ In CR (WANDB_API_KEY raw) /\
  rstrip (WANDB_API_KEY raw) = WANDB_API_KEY raw /\
  exists b,
    before_line_end raw = WANDB_API_KEY raw ++ b /\ all_space b = true.
Proof.
  assert (WANDB_API_KEY raw = rstrip (before_line_end raw)) as Hk.
  { unfold WANDB_API_KEY.
    destruct (readline_first_line (universal_newlines raw)) as [b [-> Hb]].
    rewrite first_translated_line. apply rstrip_all_space, Hb. }
  destruct (rstrip_decompose (before_line_end raw)) as [b [Hd Hb]].
  destruct (before_line_end_clean raw) as [Hn Hc].
  split; [exact Hk|]. rewrite Hk. split; [|split; [|split]].
  - intros Hin. apply Hn. rewrite Hd. apply in_or_app. left. exact Hin.
  - intros Hin. apply Hc. rewrite Hd. apply in_or_app. left. exact Hin.
  - apply rstrip_idempotent.
  - exists b. auto.
Qed.

Example api_key_example :
  WANDB_API_KEY (unlines [str " abc123  "; str "second line"])
  = str " abc123" /\
  WANDB_API_KEY (str "abc" ++ CR :: str "def" ++ NEWLINE :: str "rest")
  = str "abc" /\
  WANDB_API_KEY (str "abc123" ++ CR :: NEWLINE :: str "rest")
  = str "abc123".
Proof. vm_compute. auto. Qed.

(** ** The prepared data frames and batches *)

Lemma map_fst_combine {A B : Type} (l : list A) (l' : list B) :
  List.length l = List.length l' -> map fst (combine l l') = l.
Proof.
  revert l'; induction l as [|a l IH]; intros [|b l'] H; try discriminate;
    [reflexivity|]. simpl. rewrite IH by (simpl in H; lia). reflexivity.
Qed.

Lemma combine_nth {A B : Type} (l : list A) (l' : list B) (i : nat)
    (a : A) (b : B) :
  nth_error (combine l l') i = Some (a, b) ->
  nth_error l i = Some a /\ nth_error l' i = Some b.
Proof.
  revert l' i; induction l as [|x l IH]; intros [|y l'] [|i] H;
    try discriminate.
  - inversion H; auto.
  - exact (IH l' i H).
Qed.

(** X25: building the data frame of a corpus and replacing its label
    column by the cleaned labels never raises, whatever the downloaded
    text: the frame has one row per sentence, pairing the tokens of a
    sentence with its cleaned tags, and in every row the tokens are
    non-empty, there are as many tags as tokens and every tag is
    allowed. *)
Theorem prepared_frame_rows (text : pystr) :
  prepared_frame text
  = ok (combine (fst (load_and_parse_iob text))
                (clean_corpus (snd (load_and_parse_iob text)))) /\
  Forall (fun row => fst row <> [] /\
                     List.length (snd row) = List.length (fst row) /\
                     Forall allowed (snd row))
         (combine (fst (load_and_parse_iob text))
                  (clean_corpus (snd (load_and_parse_iob text)))).
Proof.
  unfold load_and_parse_iob.
  pose proof (parse_lines_parallel (split NEWLINE text)) as Hp.
  pose proof (Forall2_length Hp) as Hlen.
  split.
  - unfold prepared_frame, load_and_parse_iob, DataFrame, set_labels.
    apply Nat.eqb_eq in Hlen as E. rewrite E. simpl.
    unfold clean_corpus at 1. rewrite length_map, length_combine, <- Hlen.
    rewrite Nat.min_id, Nat.eqb_refl.
    rewrite map_fst_combine by exact Hlen. reflexivity.
  - apply Forall_forall. intros [tokens tags] Hrow.
    apply In_nth_error in Hrow as [i Hi].
    apply combine_nth in Hi as [Htok Htag].
    unfold clean_corpus in Htag. rewrite nth_error_map in Htag.
    destruct (nth_error (snd (parse_lines (split NEWLINE text))) i)
      as [raw|] eqn:Eraw; [|discriminate].
    simpl in Htag. inversion Htag; subst tags. simpl.
    destruct (Forall2_nth _ _ _ Hp i tokens raw Htok Eraw) as [Hl Hne].
    split; [exact Hne|]. split.
    + unfold clean_labels. rewrite length_map. symmetry. exact Hl.
    + apply clean_labels_allowed.
Qed.

Lemma align_app_raise (vocab label : list pystr) (a b : list (option nat))
    (e : exn) :
  forall prev,
    align_label_ids vocab label prev a = raise e ->
    align_label_ids vocab label prev (a ++ b) = raise e.
Proof.
  induction a as [|x a IH]; intros prev H; [discriminate H|].
  change ((x :: a) ++ b) with (x :: (a ++ b)).
  simpl in H. simpl.
  destruct (match x with
            | Some w =>
                if negb (word_idx_eqb x prev)
                then tag <- getitem label w;;
                     k <- index vocab tag;; ok (Z.of_nat k)
                else ok IGNORE
            | None => ok IGNORE
            end) as [e'|y]; simpl in *; [exact H|].
  destruct (align_label_ids vocab label x a) as [e'|ys] eqn:Ea;
    simpl in H; [|discriminate H].
  inversion H; subst e'. rewrite (IH x Ea). reflexivity.
Qed.

(** X26: the batch of a sentence reaches its labels only through
    padding.  Appending [n] padding positions to a sentence's mapping, as
    padding to the longest sentence of a batch does, appends [n] times -100
    to its label row and changes nothing else: the labels of all earlier
    positions are the same, an error is the same error, and the labels
    other than -100, which are all the decoding looks at, are the same. *)
Theorem padding_appends_ignore (vocab label : list pystr)
    (word_ids : list (option nat)) (n : nat) :
  align_label_ids vocab label None (word_ids ++ repeat None n)
  = (ids <- align_label_ids vocab label None word_ids ;;
     ok (ids ++ repeat IGNORE n)) /\
  (forall ids padded,
     align_label_ids vocab label None word_ids = ok ids ->
     align_label_ids vocab label None (word_ids ++ repeat None n) = ok padded ->
     filter (fun g => negb (Z.eqb g IGNORE)) padded
     = filter (fun g => negb (Z.eqb g IGNORE)) ids).
Proof.
  assert (align_label_ids vocab label None (word_ids ++ repeat None n)
          = (ids <- align_label_ids vocab label None word_ids ;;
             ok (ids ++ repeat IGNORE n))) as Heq.
  { destruct (align_label_ids vocab label None word_ids) as [e|ids] eqn:Ea.
    - simpl. apply align_app_raise, Ea.
    - simpl. apply align_app_iff. exists ids, (repeat IGNORE n).
      split; [reflexivity|]. split; [exact Ea | apply align_nones]. }
  split; [exact Heq|]. intros ids padded Hids Hpad.
  rewrite Heq, Hids in Hpad. simpl in Hpad. apply ok_inj in Hpad. subst padded.
  rewrite filter_app, filter_ignore_repeat, app_nil_r. reflexivity.
Qed.

Lemma padding_appends_ignore_witness :
  filter (fun g => negb (Z.eqb g IGNORE))
         [IGNORE; 1%Z; IGNORE; IGNORE; IGNORE; IGNORE]
  = filter (fun g => negb (Z.eqb g IGNORE)) [IGNORE; 1%Z; IGNORE; IGNORE].
Proof.
  exact (proj2 (padding_appends_ignore [str "O"; str "B-SNP"] [str "B-SNP"]
                  [None; Some 0; Some 0; None] 2)
           [IGNORE; 1%Z; IGNORE; IGNORE]
           [IGNORE; 1%Z; IGNORE; IGNORE; IGNORE; IGNORE] eq_refl eq_refl).
Defined.
